(** * hahomematic: custom entity composition, light and lock behaviours

    A shallow embedding of
    - [hahomematic/custom_platforms/entity_definition.py]
      (the definition table, channel rebasing, the entity factory),
    - [hahomematic/custom_platforms/light.py] (dimmer and colour lights),
    - [hahomematic/custom_platforms/lock.py] (the classic lock),
    - [hahomematic/generic_platforms/select.py], [switch.py]
      (the parts the custom entities call),
    followed by the properties of the composition engine.

    Conventions of the embedding:
    - a Python [dict] with a fixed vocabulary of string keys is a record of
      [option]s ([None] = key absent), a [dict] keyed by channel numbers is a
      [gmap], a [dict] keyed by the [EntityDefinition] enum is a function to
      [option];
    - an exception is a value of [PyErr]; code that can raise returns
      [result];
    - Python [int] is [Z]; Python [float] is the exact rational [Q]
      (binary64 rounding is not modelled). *)

From Stdlib Require Import ZArith QArith Qround Qminmax Lqa Lia List.
From stdpp Require Import base option list gmap strings pretty.

Set Default Proof Using "Type".
Local Open Scope Z_scope.

(** ** Python values and exceptions *)

Inductive PyErr : Type :=
  | KeyError (key : string)
  | IndexError
  | TypeError
  | ValueError.

Inductive result (A : Type) : Type :=
  | Ok (a : A)
  | Raise (e : PyErr).
Arguments Ok {A} a.
Arguments Raise {A} e.

Definition result_bind {A B} (r : result A) (f : A → result B) : result B :=
  match r with
  | Ok a => f a
  | Raise e => Raise e
  end.

(** ** entity_definition.py: vocabulary *)

Module ED.

Definition ED_DEFAULT_ENTITIES : string := "default_entities".
Definition ED_INCLUDE_DEFAULT_ENTITIES : string := "include_default_entities".
Definition ED_DEVICE_GROUP : string := "device_group".
Definition ED_DEVICE_DEFINITIONS : string := "device_definitions".
Definition ED_ADDITIONAL_ENTITIES : string := "additional_entities".
Definition ED_FIELDS : string := "fields".
Definition ED_REPEATABLE_FIELDS : string := "repeatable_fields".
Definition ED_VISIBLE_REPEATABLE_FIELDS : string := "visible_repeatable_fields".
Definition ED_PRIMARY_CHANNEL : string := "primary_channel".
Definition ED_SECONDARY_CHANNELS : string := "secondary_channels".
Definition ED_VISIBLE_FIELDS : string := "visible_fields".
Definition DEFAULT_INCLUDE_DEFAULT_ENTITIES : bool := true.

Definition FIELD_ACTIVE_PROFILE : string := "active_profile".
Definition FIELD_AUTO_MODE : string := "auto_mode".
Definition FIELD_BOOST_MODE : string := "boost_mode".
Definition FIELD_CHANNEL_COLOR : string := "channel_color".
Definition FIELD_CHANNEL_LEVEL : string := "channel_level".
Definition FIELD_CHANNEL_LEVEL_2 : string := "channel_level_2".
Definition FIELD_CHANNEL_STATE : string := "channel_state".
Definition FIELD_COLOR : string := "color".
Definition FIELD_COLOR_LEVEL : string := "color_temp".
Definition FIELD_COMFORT_MODE : string := "comfort_mode".
Definition FIELD_CONTROL_MODE : string := "control_mode".
Definition FIELD_DIRECTION : string := "direction".
Definition FIELD_DOOR_COMMAND : string := "door_command".
Definition FIELD_DOOR_STATE : string := "door_state".
Definition FIELD_DURATION_UNIT : string := "duration_unit".
Definition FIELD_DURATION : string := "duration".
Definition FIELD_ERROR : string := "error".
Definition FIELD_HEATING_COOLING : string := "heating_cooling".
Definition FIELD_HUMIDITY : string := "humidity".
Definition FIELD_LEVEL : string := "level".
Definition FIELD_LEVEL_2 : string := "level_2".
Definition FIELD_LOCK_STATE : string := "lock_state".
Definition FIELD_LOCK_TARGET_LEVEL : string := "lock_target_level".
Definition FIELD_LOWERING_MODE : string := "lowering_mode".
Definition FIELD_MANU_MODE : string := "manu_mode".
Definition FIELD_ON_TIME_VALUE : string := "on_time_value".
Definition FIELD_ON_TIME_UNIT : string := "on_time_unit".
Definition FIELD_OPEN : string := "open".
Definition FIELD_PARTY_MODE : string := "party_mode".
Definition FIELD_PROGRAM : string := "program".
Definition FIELD_RAMP_TIME_VALUE : string := "ramp_time_value".
Definition FIELD_RAMP_TIME_UNIT : string := "ramp_time_unit".
Definition FIELD_SECTION : string := "section".
Definition FIELD_SET_POINT_MODE : string := "set_point_mode".
Definition FIELD_SETPOINT : string := "setpoint".
Definition FIELD_STATE : string := "state".
Definition FIELD_STOP : string := "stop".
Definition FIELD_TEMPERATURE : string := "temperature".
Definition FIELD_TEMPERATURE_MAXIMUM : string := "temperature_maximum".
Definition FIELD_TEMPERATURE_MINIMUM : string := "temperature_minimum".
Definition FIELD_VALVE_STATE : string := "valve_state".
Definition FIELD_ACOUSTIC_ALARM_ACTIVE : string := "acoustic_alarm_active".
Definition FIELD_ACOUSTIC_ALARM_SELECTION : string := "acoustic_alarm_selection".
Definition FIELD_OPTICAL_ALARM_ACTIVE : string := "optical_alarm_active".
Definition FIELD_OPTICAL_ALARM_SELECTION : string := "optical_alarm_selection".

(** [class EntityDefinition(StrEnum)] *)
Inductive EntityDefinition : Type :=
  | IP_COVER
  | IP_DIMMER
  | IP_GARAGE
  | IP_SWITCH
  | IP_FIXED_COLOR_LIGHT
  | IP_SIMPLE_FIXED_COLOR_LIGHT
  | IP_LOCK
  | IP_THERMOSTAT
  | IP_THERMOSTAT_GROUP
  | IP_SIREN
  | RF_COVER
  | RF_DIMMER
  | RF_DIMMER_COLOR
  | RF_DIMMER_COLOR_TEMP
  | RF_DIMMER_WITH_VIRT_CHANNEL
  | RF_LOCK
  | RF_THERMOSTAT
  | RF_THERMOSTAT_GROUP
  | RF_SIREN
  | RF_SWITCH
  | SIMPLE_RF_THERMOSTAT.

#[global] Instance EntityDefinition_eq_dec : EqDecision EntityDefinition.
Proof. solve_decision. Defined.

(** ** The schema levels

    [SCHEMA_ED_FIELD_DETAILS]: field name to parameter name.
    [SCHEMA_ED_FIELD]: channel number to field details.
    [SCHEMA_ED_ADDITIONAL_ENTITIES]: a channel number or a tuple of channel
    numbers to a tuple of parameter names. *)

Inductive ChannelKey : Type :=
  | CkInt (channel_no : Z)
  | CkTuple (channel_nos : list Z).

#[global] Instance ChannelKey_eq_dec : EqDecision ChannelKey.
Proof. solve_decision. Defined.

#[global] Instance ChannelKey_countable : Countable ChannelKey.
Proof.
  refine (inj_countable'
    (λ k, match k with CkInt z => inl z | CkTuple l => inr l end)
    (λ s, match s with inl z => CkInt z | inr l => CkTuple l end) _).
  by intros [].
Defined.

(** A device group: the dict validated by [SCHEMA_ED_DEVICE_GROUP]; every
    key may be absent from the dict, the empty dict has them all absent. *)
Record DeviceGroup : Type := mkDeviceGroup {
  primary_channel : option Z;
  secondary_channels : option (list Z);
  repeatable_fields : option (gmap string string);
  visible_repeatable_fields : option (gmap string string);
  fields : option (gmap Z (gmap string string));
  visible_fields : option (gmap Z (gmap string string));
}.

(** The dict [{}]. *)
Definition empty_group : DeviceGroup :=
  mkDeviceGroup None None None None None None.

(** Truth value of a group dict: a dict is true when it has a key. *)
Definition group_truthy (g : DeviceGroup) : bool :=
  bool_decide (is_Some (primary_channel g))
  || bool_decide (is_Some (secondary_channels g))
  || bool_decide (is_Some (repeatable_fields g))
  || bool_decide (is_Some (visible_repeatable_fields g))
  || bool_decide (is_Some (fields g))
  || bool_decide (is_Some (visible_fields g)).

(** One entry of [ED_DEVICE_DEFINITIONS]: the dict validated by
    [SCHEMA_ED_DEVICE_GROUPS]. *)
Record DeviceDef : Type := mkDeviceDef {
  device_group : option DeviceGroup;
  additional_entities : option (gmap ChannelKey (list string));
  include_default_entities : option bool;
}.

Definition device_truthy (d : DeviceDef) : bool :=
  bool_decide (is_Some (device_group d))
  || bool_decide (is_Some (additional_entities d))
  || bool_decide (is_Some (include_default_entities d)).

(** The whole table: the dict validated by [SCHEMA_DEVICE_DESCRIPTION]. *)
Record EntityDefinitions : Type := mkEntityDefinitions {
  default_entities : gmap ChannelKey (list string);
  device_definitions : EntityDefinition → option DeviceDef;
}.

(** ** The functions of the module, over the table they read

    [entity_definition] is a module-level global of the source; the
    functions take it as a section variable so that their properties can
    be stated for any table and then for the shipped one. *)

Section Functions.

Variable entity_definition : EntityDefinitions.

(** [_get_device]: the entry of the table, [None] when the key is absent
    or the entry is the empty dict. [deepcopy] is the identity on values. *)
Definition _get_device (device_enum : EntityDefinition) : option DeviceDef :=
  match device_definitions entity_definition device_enum with
  | Some device => if device_truthy device then Some device else None
  | None => None
  end.

(** [get_include_default_entities] *)
Definition get_include_default_entities (device_enum : EntityDefinition) : bool :=
  match _get_device device_enum with
  | Some device =>
      default DEFAULT_INCLUDE_DEFAULT_ENTITIES (include_default_entities device)
  | None => DEFAULT_INCLUDE_DEFAULT_ENTITIES
  end.

(** [_rebase_entity_dict]: [entity_dict] selects the key of [group] that is
    read. The loop [new_fields[channel_no + base_channel_no] = field] runs
    over the items of the dict. *)
Definition _rebase_entity_dict
    (entity_dict : DeviceGroup → option (gmap Z (gmap string string)))
    (group : DeviceGroup) (base_channel_no : Z) : gmap Z (gmap string string) :=
  match entity_dict group with
  | Some fields =>
      if decide (fields = ∅) then ∅
      else map_fold
             (λ channel_no field new_fields,
                <[channel_no + base_channel_no := field]> new_fields)
             ∅ fields
  | None => ∅
  end.

(** [_get_device_group]. The first [match] is the block under [if device:]:
    [inl] is a [return] (or a raised [KeyError]) from inside that block,
    [inr group] falls through to the code after it. *)
Definition _get_device_group
    (device_enum : EntityDefinition) (base_channel_no : Z) : result DeviceGroup :=
  let device := _get_device device_enum in
  let after_if : result DeviceGroup + DeviceGroup :=
    match device with
    | Some device =>
        match device_group device with
        | None => inl (Raise (KeyError ED_DEVICE_GROUP))
        | Some group =>
            if group_truthy group && (base_channel_no =? 0) then inl (Ok group)
            else if negb (group_truthy group) then inl (Ok empty_group)
            else inr group
        end
    | None => inr empty_group
    end in
  match after_if with
  | inl returned => returned
  | inr group =>
      match primary_channel group with
      | None => Raise (KeyError ED_PRIMARY_CHANNEL)
      | Some primary =>
          let group1 :=
            mkDeviceGroup (Some (primary + base_channel_no))
              (secondary_channels group) (repeatable_fields group)
              (visible_repeatable_fields group) (fields group)
              (visible_fields group) in
          let group2 :=
            match secondary_channels group1 with
            | Some ((_ :: _) as secondary_channel) =>
                mkDeviceGroup (primary_channel group1)
                  (Some ((λ x, x + base_channel_no) <$> secondary_channel))
                  (repeatable_fields group1) (visible_repeatable_fields group1)
                  (fields group1) (visible_fields group1)
            | _ => group1
            end in
          let group3 :=
            mkDeviceGroup (primary_channel group2) (secondary_channels group2)
              (repeatable_fields group2) (visible_repeatable_fields group2)
              (fields group2)
              (Some (_rebase_entity_dict visible_fields group2 base_channel_no)) in
          Ok (mkDeviceGroup (primary_channel group3) (secondary_channels group3)
                (repeatable_fields group3) (visible_repeatable_fields group3)
                (Some (_rebase_entity_dict fields group3 base_channel_no))
                (visible_fields group3))
      end
  end.

(** [channel_no + base_channel_no] on a key of the additional entities: an
    [int] key is shifted, a [tuple] key raises [TypeError]. *)
Definition key_add (channel_no : ChannelKey) (base_channel_no : Z) : result Z :=
  match channel_no with
  | CkInt z => Ok (z + base_channel_no)
  | CkTuple _ => Raise TypeError
  end.

(** [_get_device_entities] *)
Definition _get_device_entities
    (device_enum : EntityDefinition) (base_channel_no : Z)
    : result (gmap Z (list string)) :=
  let additional_entities : gmap ChannelKey (list string) :=
    match device_definitions entity_definition device_enum with
    | Some device => default ∅ (additional_entities device)
    | None => ∅
    end in
  if decide (additional_entities = ∅) then Ok ∅
  else map_fold
         (λ channel_no field acc,
            result_bind acc (λ new_entities,
            result_bind (key_add channel_no base_channel_no) (λ k,
            Ok (<[k := field]> new_entities))))
         (Ok ∅) additional_entities.

(** ** The entity factory *)

(** [class ExtendedConfig] *)
Record ExtendedConfig : Type := mkExtendedConfig {
  fixed_channels : option (gmap Z (gmap string string));
  extended_additional_entities : option (gmap ChannelKey (list string));
}.

(** The part of [hmd.HmDevice] the factory reads: the device address and
    the channel addresses of the device (the keys of [device.channels]). *)
Record HmDevice : Type := mkHmDevice {
  device_address : string;
  channels : gset string;
}.

(** A custom entity as the factory sees it: the arguments it was created
    with and the fields it bound. *)
Record CustomEntity : Type := mkCustomEntity {
  unique_identifier : string;
  ce_device_enum : EntityDefinition;
  ce_device_def : DeviceGroup;
  ce_entity_def : gmap Z (list string);
  ce_channel_no : Z;
  ce_extended : option ExtendedConfig;
  data_entities : list string;
}.

(** Modelled from the spec: [custom_entity_class], a subclass of
    [hme.CustomEntity] (hahomematic/entity.py is not part of the sources
    at hand). Its constructor keeps the arguments and binds the fields
    the kind declares against the parameters of the device (spec 4.2 d, e
    and 4.3); a class is given by the field names it binds. The binding
    reads the device and the schema, not the catalog of entities. *)
Definition EntityClass : Type :=
  HmDevice → EntityDefinition → DeviceGroup → gmap Z (list string) → Z →
  option ExtendedConfig → list string.

Definition instantiate (custom_entity_class : EntityClass)
    (device : HmDevice) (unique_identifier : string)
    (device_enum : EntityDefinition) (device_def : DeviceGroup)
    (entity_def : gmap Z (list string)) (channel_no : Z)
    (extended : option ExtendedConfig) : CustomEntity :=
  mkCustomEntity unique_identifier device_enum device_def entity_def
    channel_no extended
    (custom_entity_class device device_enum device_def entity_def
       channel_no extended).

(** Modelled from the spec: the device catalog (spec 6: [has_entity],
    [add_entity]; hahomematic/device.py and central are not part of the
    sources at hand). [registered] lists the entities passed to
    [add_entity], oldest first; [instantiated] lists the constructor calls
    of [custom_entity_class], oldest first. *)
Record Catalog : Type := mkCatalog {
  registered : list CustomEntity;
  instantiated : list CustomEntity;
}.

(** [device.central.has_entity(unique_identifier=...)] *)
Definition has_entity (catalog : Catalog) (uid : string) : bool :=
  bool_decide (uid ∈ unique_identifier <$> registered catalog).

(** [device.add_entity(entity)] *)
Definition add_entity (entity : CustomEntity) (catalog : Catalog) : Catalog :=
  mkCatalog (registered catalog ++ [entity]) (instantiated catalog).

Definition note_instantiated (entity : CustomEntity) (catalog : Catalog)
    : Catalog :=
  mkCatalog (registered catalog) (instantiated catalog ++ [entity]).

(** Code of the factory runs on the catalog and may raise. *)
Definition Factory (A : Type) : Type := Catalog → result A * Catalog.

Definition fret {A} (a : A) : Factory A := λ catalog, (Ok a, catalog).

Definition fbind {A B} (c : Factory A) (k : A → Factory B) : Factory B :=
  λ catalog,
    match c catalog with
    | (Ok a, catalog') => k a catalog'
    | (Raise e, catalog') => (Raise e, catalog')
    end.

(** A computation that does not touch the catalog. *)
Definition lift {A} (r : result A) : Factory A := λ catalog, (r, catalog).

Notation "'let*' x ':=' c 'in' k" := (fbind c (λ x, k))
  (at level 10, x name, c at level 100, k at level 200).

(** [for x in xs: entities.extend(body(x))] *)
Fixpoint for_each {A B} (xs : list A) (body : A → Factory (list B))
    : Factory (list B) :=
  match xs with
  | [] => fret []
  | x :: xs' =>
      let* entities := body x in
      let* more := for_each xs' body in
      fret (entities ++ more)
  end.

(** [generate_unique_identifier(central=..., address=...)] of
    hahomematic/helpers.py, a function of the address. *)
Variable generate_unique_identifier : string → string.

(** [f"{device.device_address}:{channel_no}"] *)
Definition channel_address (device : HmDevice) (channel_no : Z) : string :=
  device_address device +:+ ":" +:+ pretty channel_no.

(** [_create_entities] *)
Definition _create_entities
    (device : HmDevice) (custom_entity_class : EntityClass)
    (device_enum : EntityDefinition) (device_def : DeviceGroup)
    (entity_def : gmap Z (list string)) (channel_no : Z)
    (extended : option ExtendedConfig) : Factory (list CustomEntity) :=
  λ catalog,
    let unique_identifier :=
      generate_unique_identifier (channel_address device channel_no) in
    if has_entity catalog unique_identifier then (Ok [], catalog)
    else if bool_decide (channel_address device channel_no ∉ channels device)
    then (Ok [], catalog)
    else
      let entity :=
        instantiate custom_entity_class device unique_identifier device_enum
          device_def entity_def channel_no extended in
      let catalog := note_instantiated entity catalog in
      if bool_decide (0 < length (data_entities entity))%nat
      then (Ok [entity], add_entity entity catalog)
      else (Ok [], catalog).

(** [make_custom_entity]. [set(channels)] is the list of the elements of
    the set, in the order the set gives them. *)
Definition make_custom_entity
    (device : HmDevice) (custom_entity_class : EntityClass)
    (device_enum : EntityDefinition) (group_base_channels : list Z)
    (extended : option ExtendedConfig) : Factory (list CustomEntity) :=
  let* entity_def :=
    lift (match group_base_channels with
          | [] => Raise IndexError
          | first :: _ => _get_device_entities device_enum first
          end) in
  for_each group_base_channels (λ base_channel,
    let* device_def := lift (_get_device_group device_enum base_channel) in
    let* primary :=
      lift (match primary_channel device_def with
            | Some primary => Ok primary
            | None => Raise (KeyError ED_PRIMARY_CHANNEL)
            end) in
    let channels :=
      match secondary_channels device_def with
      | Some ((_ :: _) as secondary_channels) => primary :: secondary_channels
      | _ => [primary]
      end in
    for_each (elements (list_to_set channels : gset Z)) (λ channel_no,
      _create_entities device custom_entity_class device_enum device_def
        entity_def channel_no extended)).

End Functions.

(** ** The shipped table [entity_definition] *)

Definition dimmer_fields : gmap string string :=
  {[ FIELD_LEVEL := "LEVEL";
     FIELD_ON_TIME_VALUE := "ON_TIME";
     FIELD_RAMP_TIME_VALUE := "RAMP_TIME" ]}.

Definition fixed_color_light_fields : gmap string string :=
  {[ FIELD_COLOR := "COLOR";
     FIELD_LEVEL := "LEVEL";
     FIELD_ON_TIME_UNIT := "DURATION_UNIT";
     FIELD_ON_TIME_VALUE := "DURATION_VALUE";
     FIELD_RAMP_TIME_UNIT := "RAMP_TIME_UNIT";
     FIELD_RAMP_TIME_VALUE := "RAMP_TIME_VALUE" ]}.

Definition ip_thermostat_fields : gmap string string :=
  {[ FIELD_ACTIVE_PROFILE := "ACTIVE_PROFILE";
     FIELD_BOOST_MODE := "BOOST_MODE";
     FIELD_CONTROL_MODE := "CONTROL_MODE";
     FIELD_HEATING_COOLING := "HEATING_COOLING";
     FIELD_PARTY_MODE := "PARTY_MODE";
     FIELD_SETPOINT := "SET_POINT_TEMPERATURE";
     FIELD_SET_POINT_MODE := "SET_POINT_MODE";
     FIELD_TEMPERATURE_MAXIMUM := "TEMPERATURE_MAXIMUM";
     FIELD_TEMPERATURE_MINIMUM := "TEMPERATURE_MINIMUM" ]}.

Definition rf_thermostat_fields : gmap string string :=
  {[ FIELD_AUTO_MODE := "AUTO_MODE";
     FIELD_BOOST_MODE := "BOOST_MODE";
     FIELD_COMFORT_MODE := "COMFORT_MODE";
     FIELD_CONTROL_MODE := "CONTROL_MODE";
     FIELD_LOWERING_MODE := "LOWERING_MODE";
     FIELD_MANU_MODE := "MANU_MODE";
     FIELD_SETPOINT := "SET_TEMPERATURE";
     FIELD_TEMPERATURE_MAXIMUM := "TEMPERATURE_MAXIMUM";
     FIELD_TEMPERATURE_MINIMUM := "TEMPERATURE_MINIMUM" ]}.

(** An entry that has only the [ED_DEVICE_GROUP] key. *)
Definition only_group (g : DeviceGroup) : DeviceDef :=
  mkDeviceDef (Some g) None None.

Definition shipped_device_definitions
    (device_enum : EntityDefinition) : option DeviceDef :=
  match device_enum with
  | IP_COVER => Some (only_group
      (mkDeviceGroup (Some 1) None
         (Some {[ FIELD_LEVEL := "LEVEL"; FIELD_LEVEL_2 := "LEVEL_2";
                  FIELD_STOP := "STOP" ]})
         None
         (Some {[ 0 := {[ FIELD_DIRECTION := "ACTIVITY_STATE";
                          FIELD_CHANNEL_LEVEL := "LEVEL";
                          FIELD_CHANNEL_LEVEL_2 := "LEVEL_2" ]} ]})
         None))
  | IP_DIMMER => Some (only_group
      (mkDeviceGroup (Some 1) (Some [2; 3]) (Some dimmer_fields) None None
         (Some {[ 0 := {[ FIELD_CHANNEL_LEVEL := "LEVEL" ]} ]})))
  | IP_GARAGE => Some
      (mkDeviceDef
         (Some (mkDeviceGroup (Some 0) None
            (Some {[ FIELD_DOOR_COMMAND := "DOOR_COMMAND";
                     FIELD_SECTION := "SECTION" ]})
            (Some {[ FIELD_DOOR_STATE := "DOOR_STATE" ]})
            None None))
         (Some {[ CkInt 1 := ["STATE"] ]})
         None)
  | IP_FIXED_COLOR_LIGHT => Some (only_group
      (mkDeviceGroup (Some 1) (Some [2; 3]) (Some fixed_color_light_fields)
         None None
         (Some {[ 0 := {[ FIELD_CHANNEL_COLOR := "COLOR";
                          FIELD_CHANNEL_LEVEL := "LEVEL" ]} ]})))
  | IP_SIMPLE_FIXED_COLOR_LIGHT => Some (only_group
      (mkDeviceGroup (Some 0) None (Some fixed_color_light_fields)
         None None None))
  | IP_SWITCH => Some
      (mkDeviceDef
         (Some (mkDeviceGroup (Some 1) (Some [2; 3])
            (Some {[ FIELD_STATE := "STATE"; FIELD_ON_TIME_VALUE := "ON_TIME" ]})
            None None
            (Some {[ 0 := {[ FIELD_CHANNEL_STATE := "STATE" ]} ]})))
         (Some {[ CkInt 4 := ["CURRENT"; "ENERGY_COUNTER"; "FREQUENCY";
                              "POWER"; "ACTUAL_TEMPERATURE"; "VOLTAGE"] ]})
         None)
  | IP_LOCK => Some (only_group
      (mkDeviceGroup (Some 1) None
         (Some {[ FIELD_DIRECTION := "ACTIVITY_STATE";
                  FIELD_LOCK_STATE := "LOCK_STATE";
                  FIELD_LOCK_TARGET_LEVEL := "LOCK_TARGET_LEVEL" ]})
         None
         (Some {[ 0 := {[ FIELD_ERROR := "ERROR_JAMMED" ]} ]})
         None))
  | IP_SIREN => Some (only_group
      (mkDeviceGroup (Some 3) None
         (Some {[ FIELD_ACOUSTIC_ALARM_ACTIVE := "ACOUSTIC_ALARM_ACTIVE";
                  FIELD_OPTICAL_ALARM_ACTIVE := "OPTICAL_ALARM_ACTIVE";
                  FIELD_ACOUSTIC_ALARM_SELECTION := "ACOUSTIC_ALARM_SELECTION";
                  FIELD_OPTICAL_ALARM_SELECTION := "OPTICAL_ALARM_SELECTION";
                  FIELD_DURATION := "DURATION_VALUE";
                  FIELD_DURATION_UNIT := "DURATION_UNIT" ]})
         None None None))
  | IP_THERMOSTAT => Some (only_group
      (mkDeviceGroup (Some 0) None (Some ip_thermostat_fields)
         (Some {[ FIELD_HUMIDITY := "HUMIDITY";
                  FIELD_TEMPERATURE := "ACTUAL_TEMPERATURE" ]})
         None
         (Some {[ 0 := {[ FIELD_LEVEL := "LEVEL" ]};
                  8 := {[ FIELD_STATE := "STATE" ]} ]})))
  | IP_THERMOSTAT_GROUP => Some
      (mkDeviceDef
         (Some (mkDeviceGroup (Some 0) None (Some ip_thermostat_fields)
            (Some {[ FIELD_HUMIDITY := "HUMIDITY";
                     FIELD_TEMPERATURE := "ACTUAL_TEMPERATURE" ]})
            (Some {[ 0 := {[ FIELD_LEVEL := "LEVEL" ]};
                     3 := {[ FIELD_STATE := "STATE" ]} ]})
            None))
         None
         (Some false))
  | RF_COVER => Some (only_group
      (mkDeviceGroup (Some 0) None
         (Some {[ FIELD_DIRECTION := "DIRECTION"; FIELD_LEVEL := "LEVEL";
                  FIELD_LEVEL_2 := "LEVEL_SLATS"; FIELD_STOP := "STOP" ]})
         None None None))
  | RF_DIMMER => Some (only_group
      (mkDeviceGroup (Some 0) None (Some dimmer_fields) None None None))
  | RF_DIMMER_COLOR => Some (only_group
      (mkDeviceGroup (Some 0) None (Some dimmer_fields) None
         (Some {[ 1 := {[ FIELD_COLOR := "COLOR" ]};
                  2 := {[ FIELD_PROGRAM := "PROGRAM" ]} ]})
         None))
  | RF_DIMMER_COLOR_TEMP => Some (only_group
      (mkDeviceGroup (Some 0) None (Some dimmer_fields) None
         (Some {[ 1 := {[ FIELD_COLOR_LEVEL := "LEVEL" ]} ]})
         None))
  | RF_DIMMER_WITH_VIRT_CHANNEL => Some (only_group
      (mkDeviceGroup (Some 0) (Some [1; 2]) (Some dimmer_fields)
         None None None))
  | RF_LOCK => Some (only_group
      (mkDeviceGroup (Some 0) None
         (Some {[ FIELD_DIRECTION := "DIRECTION"; FIELD_OPEN := "OPEN";
                  FIELD_STATE := "STATE"; FIELD_ERROR := "ERROR" ]})
         None None None))
  | RF_SWITCH => Some
      (mkDeviceDef
         (Some (mkDeviceGroup (Some 0) None
            (Some {[ FIELD_STATE := "STATE"; FIELD_ON_TIME_VALUE := "ON_TIME" ]})
            None None None))
         (Some {[ CkInt 1 := ["CURRENT"; "ENERGY_COUNTER"; "FREQUENCY";
                              "POWER"; "VOLTAGE"] ]})
         None)
  | RF_THERMOSTAT => Some (only_group
      (mkDeviceGroup (Some 0) None (Some rf_thermostat_fields)
         (Some {[ FIELD_HUMIDITY := "ACTUAL_HUMIDITY";
                  FIELD_TEMPERATURE := "ACTUAL_TEMPERATURE" ]})
         None
         (Some {[ 0 := {[ FIELD_VALVE_STATE := "VALVE_STATE" ]} ]})))
  | RF_THERMOSTAT_GROUP => Some
      (mkDeviceDef
         (Some (mkDeviceGroup (Some 0) None (Some rf_thermostat_fields)
            (Some {[ FIELD_HUMIDITY := "ACTUAL_HUMIDITY";
                     FIELD_TEMPERATURE := "ACTUAL_TEMPERATURE" ]})
            (Some {[ 0 := {[ FIELD_VALVE_STATE := "VALVE_STATE" ]} ]})
            None))
         None
         (Some false))
  | SIMPLE_RF_THERMOSTAT => Some (only_group
      (mkDeviceGroup (Some 0) None None
         (Some {[ FIELD_HUMIDITY := "HUMIDITY";
                  FIELD_TEMPERATURE := "TEMPERATURE" ]})
         (Some {[ 1 := {[ FIELD_SETPOINT := "SETPOINT" ]} ]})
         None))
  | RF_SIREN => None
  end.

Definition entity_definition : EntityDefinitions :=
  mkEntityDefinitions
    {[ CkInt 0 := ["DUTY_CYCLE"; "DUTYCYCLE"; "LOW_BAT"; "LOWBAT";
                   "OPERATING_VOLTAGE"; "RSSI_DEVICE"; "RSSI_PEER"; "SABOTAGE"];
       CkInt 2 := ["BATTERY_STATE"];
       CkInt 4 := ["BATTERY_STATE"] ]}
    shipped_device_definitions.

(** ** Vocabulary of the properties *)

(** The rebased map has exactly the keys of the original, each plus [b],
    with the value the key had. *)
Definition shifted_keys {A} (b : Z) (orig rebased : gmap Z A) : Prop :=
  (∀ k, rebased !! (k + b) = orig !! k)
  ∧ (∀ k' v, rebased !! k' = Some v → ∃ k, k' = k + b ∧ orig !! k = Some v).

(** What a rebased group is, relative to the group of the table. *)
Record rebased_by (b : Z) (orig rebased : DeviceGroup) : Prop := {
  rb_identity : b = 0 → rebased = orig;
  rb_primary :
    primary_channel rebased = (λ p, p + b) <$> primary_channel orig;
  rb_secondary :
    secondary_channels rebased
    = (λ l : list Z, (λ x, x + b) <$> l) <$> secondary_channels orig;
  rb_fields :
    shifted_keys b (default ∅ (fields orig)) (default ∅ (fields rebased));
  rb_visible_fields :
    shifted_keys b (default ∅ (visible_fields orig))
      (default ∅ (visible_fields rebased));
  rb_repeatable : repeatable_fields rebased = repeatable_fields orig;
  rb_visible_repeatable :
    visible_repeatable_fields rebased = visible_repeatable_fields orig;
}.

(** The catalog [c'] has the registrations of [c] and possibly more. *)
Definition extends (c c' : Catalog) : Prop :=
  ∃ more, registered c' = registered c ++ more.

(** No two registered entities share a unique identifier. *)
Definition unique_ids (c : Catalog) : Prop :=
  NoDup (unique_identifier <$> registered c).

(** A factory computation that only adds registrations, registers nothing
    when it is run again later, and keeps the identifiers unique. *)
Record idempotent {A} (m : Factory (list A)) : Prop := {
  idem_grows : ∀ c, extends c (m c).2;
  idem_quiet : ∀ c c2,
    extends (m c).2 c2 →
    registered (m c2).2 = registered c2
    ∧ match (m c).1 with
      | Ok _ => (m c2).1 = Ok []
      | Raise e => (m c2).1 = Raise e
      end;
  idem_unique : ∀ c, unique_ids c → unique_ids (m c).2;
}.

(** A factory computation all of whose new entities satisfy [P]: those it
    instantiates, those it registers and those it returns. *)
Record creates_only {A} (P : CustomEntity → Prop)
    (m : Factory A) (returned : A → list CustomEntity) : Prop := {
  co_instantiated : ∀ c,
    ∃ news, instantiated (m c).2 = instantiated c ++ news ∧ Forall P news;
  co_registered : ∀ c,
    ∃ news, registered (m c).2 = registered c ++ news ∧ Forall P news;
  co_returned : ∀ c,
    match (m c).1 with
    | Ok a => Forall P (returned a)
    | Raise _ => True
    end;
}.

(** The additional entities of a kind in a table, [{}] when there are none. *)
Definition additional_of (defs : EntityDefinitions)
    (device_enum : EntityDefinition) : gmap ChannelKey (list string) :=
  default ∅ (device_definitions defs device_enum ≫= additional_entities).

(** *** A device and a class to run the factory on *)

(** A device with the channels 1 and 2. *)
Definition two_channel_device : HmDevice :=
  mkHmDevice "VCU0000001" {[ "VCU0000001:1"; "VCU0000001:2" ]}.

(** A class that binds the state field on every channel. *)
Definition binds_state : EntityClass := λ _ _ _ _ _ _, [FIELD_STATE].

(** A class that binds nothing. *)
Definition binds_nothing : EntityClass := λ _ _ _ _ _ _, [].

Definition empty_catalog : Catalog := mkCatalog [] [].

End ED.

(** ** Values sent to and read from the bound parameters *)

Inductive PyVal : Type :=
  | VNone
  | VBool (b : bool)
  | VInt (z : Z)
  | VFloat (q : Q)
  | VStr (s : string).

(** Modelled from the spec: the bound parameter's send operation
    ([GenericEntity.send_value] of hahomematic/entity.py, not part of the
    sources at hand; spec 6, parameter sink). A command is the sequence of
    the [send_value] calls it makes, in program order, each the field of
    the entity written to and the value, together with its outcome. *)
Definition Write : Type := string * PyVal.

Definition Cmd (A : Type) : Type := list Write * result A.

Definition cret {A} (a : A) : Cmd A := ([], Ok a).

Definition cbind {A B} (c : Cmd A) (k : A → Cmd B) : Cmd B :=
  match c with
  | (ws, Ok a) => (ws ++ (k a).1, (k a).2)
  | (ws, Raise e) => (ws, Raise e)
  end.

Definition craise {A} (e : PyErr) : Cmd A := ([], Raise e).

Definition send_value (field : string) (value : PyVal) : Cmd () :=
  ([(field, value)], Ok ()).

Notation "c1 ;; c2" := (cbind c1 (λ _, c2))
  (at level 100, c2 at level 200, right associativity).

(** *** Python arithmetic on floats, as rationals *)

(** [x > y] *)
Definition Qgtb (x y : Q) : bool := negb (Qle_bool x y).

(** [x < y] *)
Definition Qltb (x y : Q) : bool := negb (Qle_bool y x).

(** [int(x)]: truncation towards zero. *)
Definition py_int (x : Q) : Z := Z.quot (Qnum x) (Z.pos (Qden x)).

(** [round(x)]: to the nearest integer, a tie to the even one. *)
Definition py_round (x : Q) : Z :=
  let f := Qfloor x in
  match (x - inject_Z f ?= 1 # 2)%Q with
  | Lt => f
  | Gt => f + 1
  | Eq => if Z.even f then f else f + 1
  end.

(** [value or 0.0] for an optional float. *)
Definition or_zero (value : option Q) : Q :=
  match value with
  | Some v => if Qeq_bool v 0 then 0%Q else v
  | None => 0%Q
  end.

(** [l[i]] with Python's negative indices. *)
Definition py_index {A} (l : list A) (i : Z) : result A :=
  let n := Z.of_nat (length l) in
  let j := if i <? 0 then i + n else i in
  if (0 <=? j) && (j <? n)
  then match l !! Z.to_nat j with
       | Some a => Ok a
       | None => Raise IndexError
       end
  else Raise IndexError.

(** [l.index(x)] *)
Fixpoint py_list_index (l : list string) (x : string) : result Z :=
  match l with
  | [] => Raise ValueError
  | y :: l' =>
      if String.eqb y x then Ok 0
      else result_bind (py_list_index l' x) (λ i, Ok (i + 1))
  end.

(** ** generic_platforms/select.py and switch.py *)

Module Generic.

Definition TYPE_ACTION : string := "ACTION".

(** [HmSelect.send_value] for a value that is a [str]: the [int] branch
    does not apply; with a non-empty value list the index of the value is
    sent when the value is in the list; with no value list a warning is
    logged. *)
Definition HmSelect_send_value (attr_value_list : option (list string))
    (field : string) (value : string) : Cmd () :=
  match attr_value_list with
  | Some ((_ :: _) as value_list) =>
      if bool_decide (value ∈ value_list)
      then cbind (([], py_list_index value_list value) : Cmd Z)
             (λ index, send_value field (VInt index))
      else cret ()
  | _ => cret ()
  end.

(** [class HmSwitch]: the type of the parameter and the cached value. *)
Record HmSwitch : Type := mkHmSwitch {
  attr_type : string;
  attr_value : option bool;
}.

(** [HmSwitch.value] *)
Definition HmSwitch_value (self : HmSwitch) : option bool :=
  if String.eqb (attr_type self) TYPE_ACTION then Some false
  else attr_value self.

End Generic.

(** ** custom_platforms/light.py *)

Module Light.
Import ED Generic.

Definition HM_EFFECT_OFF : string := "Off".
Definition HM_MAX_MIREDS : Z := 500.
Definition HM_MIN_MIREDS : Z := 153.
Definition HM_DIMMER_OFF : Q := 0.
Definition TIME_UNIT_SECONDS : Z := 0.
Definition TIME_UNIT_MINUTES : Z := 1.
Definition TIME_UNIT_HOURS : Z := 2.

(** The light classes with a [turn_on] of their own or inherited. *)
Inductive LightClass : Type :=
  | CeDimmer
  | CeColorDimmer
  | CeColorDimmerEffect
  | CeColorTempDimmer
  | CeIpFixedColorLight.

(** The cached values of the fields a light entity has bound
    ([self._e_level.value], ...), [None] when the value is absent, and the
    value list of the colour select of the fixed colour light. *)
Record LightEntity : Type := mkLightEntity {
  e_level : option Q;
  e_channel_level : option Q;
  e_color : option Z;
  e_effect : option Z;
  e_color_level : option Q;
  e_color_value_list : option (list string);
}.

(** The keyword arguments of [turn_on]: the known ones by name
    ([ramp_time], [on_time], [brightness], [hs_color], [color_temp],
    [effect]), [None] when the key is absent, and the names of any other
    keyword passed. *)
Record Kwargs : Type := mkKwargs {
  kw_ramp_time : option Q;
  kw_on_time : option Q;
  kw_brightness : option Z;
  kw_hs_color : option (Q * Q);
  kw_color_temp : option Q;
  kw_effect : option string;
  kw_other : list string;
}.

(** Truth value of the [kwargs] dict. *)
Definition kwargs_truthy (kwargs : Kwargs) : bool :=
  bool_decide (is_Some (kw_ramp_time kwargs))
  || bool_decide (is_Some (kw_on_time kwargs))
  || bool_decide (is_Some (kw_brightness kwargs))
  || bool_decide (is_Some (kw_hs_color kwargs))
  || bool_decide (is_Some (kw_color_temp kwargs))
  || bool_decide (is_Some (kw_effect kwargs))
  || bool_decide (kw_other kwargs ≠ []).

(** [CeDimmer.is_on] *)
Definition CeDimmer_is_on (self : LightEntity) : bool :=
  match e_level self with
  | Some value => Qgtb value HM_DIMMER_OFF
  | None => false
  end.

(** [CeDimmer.brightness] *)
Definition CeDimmer_brightness (self : LightEntity) : Z :=
  py_int (or_zero (e_level self) * 255).

(** [CeDimmer.channel_brightness] *)
Definition CeDimmer_channel_brightness (self : LightEntity) : option Z :=
  match e_channel_level self with
  | Some value => Some (py_int (value * 255))
  | None => None
  end.

(** [CeIpFixedColorLight.is_on] *)
Definition CeIpFixedColorLight_is_on (self : LightEntity) : bool :=
  match e_level self with
  | Some value => Qgtb value 0
  | None => false
  end.

(** [CeIpFixedColorLight.brightness] *)
Definition CeIpFixedColorLight_brightness (self : LightEntity) : Z :=
  py_int (or_zero (e_level self) * 255).

(** [self.brightness] *)
Definition brightness (cls : LightClass) (self : LightEntity) : Z :=
  match cls with
  | CeIpFixedColorLight => CeIpFixedColorLight_brightness self
  | _ => CeDimmer_brightness self
  end.

(** [CeColorDimmer.hs_color]; the pair is (hue, saturation). *)
Definition CeColorDimmer_hs_color (self : LightEntity) : Q * Q :=
  match e_color self with
  | Some color =>
      if 200 <=? color then (0, 0)%Q
      else (inject_Z color / 200 * 360, 100)%Q
  | None => (0, 0)%Q
  end.

(** The colour code [CeColorDimmer.turn_on] computes from [hs_color]. *)
Definition color_of_hs (khue ksaturation : Q) : Z :=
  let hue := (khue / 360)%Q in
  let saturation := (ksaturation / 100)%Q in
  if Qltb saturation (1 # 10) then 200
  else py_round (Qmax (Qmin hue 1) 0 * 199).

(** [CeColorDimmerEffect._effect_list] *)
Definition _effect_list : list string :=
  [HM_EFFECT_OFF; "Slow color change"; "Medium color change";
   "Fast color change"; "Campfire"; "Waterfall"; "TV simulation"].

(** [CeColorDimmerEffect.effect] *)
Definition CeColorDimmerEffect_effect (self : LightEntity)
    : result (option string) :=
  match e_effect self with
  | Some value => result_bind (py_index _effect_list value) (λ s, Ok (Some s))
  | None => Ok None
  end.

(** [CeColorTempDimmer.color_temp] *)
Definition CeColorTempDimmer_color_temp (self : LightEntity) : Z :=
  py_int (inject_Z HM_MAX_MIREDS
          - inject_Z (HM_MAX_MIREDS - HM_MIN_MIREDS) * or_zero (e_color_level self)).

(** [_convert_color] *)
Definition _convert_color (color : option (Q * Q)) : string :=
  match color with
  | None => "WHITE"
  | Some (c0, c1) =>
      let hue := py_int c0 in
      let saturation := py_int c1 in
      if saturation <? 5 then "WHITE"
      else if (30 <? hue) && (hue <=? 90) then "YELLOW"
      else if (90 <? hue) && (hue <=? 150) then "GREEN"
      else if (150 <? hue) && (hue <=? 210) then "TURQUOISE"
      else if (210 <? hue) && (hue <=? 270) then "BLUE"
      else if (270 <? hue) && (hue <=? 330) then "PURPLE"
      else "RED"
  end.

(** [BaseHmLight.set_on_time_value] *)
Definition BaseHmLight_set_on_time_value (on_time : Q) : Cmd () :=
  send_value FIELD_ON_TIME_VALUE (VFloat on_time).

(** [BaseHmLight.set_ramp_time_value] *)
Definition BaseHmLight_set_ramp_time_value (ramp_time : Q) : Cmd () :=
  send_value FIELD_RAMP_TIME_VALUE (VFloat ramp_time).

(** [CeIpFixedColorLight.set_on_time_value] *)
Definition CeIpFixedColorLight_set_on_time_value (on_time : Q) : Cmd () :=
  let on_time_unit := TIME_UNIT_SECONDS in
  let '(on_time, on_time_unit) :=
    if Qgtb on_time 16343 then ((on_time / 60)%Q, TIME_UNIT_MINUTES)
    else (on_time, on_time_unit) in
  let '(on_time, on_time_unit) :=
    if Qgtb on_time 16343 then ((on_time / 60)%Q, TIME_UNIT_HOURS)
    else (on_time, on_time_unit) in
  send_value FIELD_ON_TIME_UNIT (VInt on_time_unit) ;;
  send_value FIELD_ON_TIME_VALUE (VFloat on_time).

(** [CeIpFixedColorLight.set_ramp_time_value] *)
Definition CeIpFixedColorLight_set_ramp_time_value (ramp_time : Q) : Cmd () :=
  let ramp_time_unit := TIME_UNIT_SECONDS in
  let '(ramp_time, ramp_time_unit) :=
    if Qgtb ramp_time 16343 then ((ramp_time / 60)%Q, TIME_UNIT_MINUTES)
    else (ramp_time, ramp_time_unit) in
  let '(ramp_time, ramp_time_unit) :=
    if Qgtb ramp_time 16343 then ((ramp_time / 60)%Q, TIME_UNIT_HOURS)
    else (ramp_time, ramp_time_unit) in
  send_value FIELD_RAMP_TIME_UNIT (VInt ramp_time_unit) ;;
  send_value FIELD_RAMP_TIME_VALUE (VFloat ramp_time).

(** [self.set_on_time_value], by the class of [self]. *)
Definition set_on_time_value (cls : LightClass) (on_time : Q) : Cmd () :=
  match cls with
  | CeIpFixedColorLight => CeIpFixedColorLight_set_on_time_value on_time
  | _ => BaseHmLight_set_on_time_value on_time
  end.

(** [self.set_ramp_time_value], by the class of [self]. *)
Definition set_ramp_time_value (cls : LightClass) (ramp_time : Q) : Cmd () :=
  match cls with
  | CeIpFixedColorLight => CeIpFixedColorLight_set_ramp_time_value ramp_time
  | _ => BaseHmLight_set_ramp_time_value ramp_time
  end.

(** The value of the walrus variable [brightness] in
    [BaseHmLight.turn_on]: [kwargs.get(HM_ARG_BRIGHTNESS, self.brightness) or 255]. *)
Definition target_brightness (cls : LightClass) (self : LightEntity)
    (kwargs : Kwargs) : Z :=
  let given := default (brightness cls self) (kw_brightness kwargs) in
  if given =? 0 then 255 else given.

(** [BaseHmLight.turn_on], run on an entity of class [cls]. *)
Definition BaseHmLight_turn_on (cls : LightClass) (self : LightEntity)
    (kwargs : Kwargs) : Cmd () :=
  (match kw_ramp_time kwargs with
   | Some ramp_time => set_ramp_time_value cls ramp_time
   | None => cret ()
   end) ;;
  (match kw_on_time kwargs with
   | Some on_time => set_on_time_value cls on_time
   | None => cret ()
   end) ;;
  let brightness_ := target_brightness cls self kwargs in
  if (negb (brightness_ =? 0) && negb (brightness_ =? brightness cls self))
     || kwargs_truthy kwargs
  then
    let level := (inject_Z brightness_ / 255)%Q in
    send_value FIELD_LEVEL (VFloat level)
  else cret ().

(** [BaseHmLight.turn_off] *)
Definition BaseHmLight_turn_off (cls : LightClass) (kwargs : Kwargs)
    : Cmd () :=
  (match kw_ramp_time kwargs with
   | Some ramp_time => set_ramp_time_value cls ramp_time
   | None => cret ()
   end) ;;
  send_value FIELD_LEVEL (VFloat HM_DIMMER_OFF).

(** [CeColorDimmer.turn_on], run on an entity of class [cls]. *)
Definition CeColorDimmer_turn_on (cls : LightClass) (self : LightEntity)
    (kwargs : Kwargs) : Cmd () :=
  (match kw_hs_color kwargs with
   | Some (khue, ksaturation) =>
       send_value FIELD_COLOR (VInt (color_of_hs khue ksaturation))
   | None => cret ()
   end) ;;
  BaseHmLight_turn_on cls self kwargs.

(** [CeColorDimmerEffect.turn_on]; [supports_effects] is [True] in this
    class. *)
Definition CeColorDimmerEffect_turn_on (cls : LightClass)
    (self : LightEntity) (kwargs : Kwargs) : Cmd () :=
  (match kw_hs_color kwargs with
   | Some _ =>
       cbind (([], CeColorDimmerEffect_effect self) : Cmd (option string))
         (λ effect,
            if bool_decide (effect ≠ Some HM_EFFECT_OFF)
            then send_value FIELD_PROGRAM (VInt 0)
            else cret ())
   | None => cret ()
   end) ;;
  (match kw_effect kwargs with
   | Some effect =>
       cbind (([], py_list_index _effect_list effect) : Cmd Z)
         (λ effect_idx, send_value FIELD_PROGRAM (VInt effect_idx))
   | None => cret ()
   end) ;;
  CeColorDimmer_turn_on cls self kwargs.

(** [CeColorTempDimmer.turn_on] *)
Definition CeColorTempDimmer_turn_on (cls : LightClass) (self : LightEntity)
    (kwargs : Kwargs) : Cmd () :=
  (match kw_color_temp kwargs with
   | Some color_temp =>
       let color_level :=
         ((inject_Z HM_MAX_MIREDS - color_temp)
          / inject_Z (HM_MAX_MIREDS - HM_MIN_MIREDS))%Q in
       send_value FIELD_COLOR_LEVEL (VFloat color_level)
   | None => cret ()
   end) ;;
  BaseHmLight_turn_on cls self kwargs.

(** [CeIpFixedColorLight.turn_on]; [_e_color] is an [HmSelect]. *)
Definition CeIpFixedColorLight_turn_on (cls : LightClass)
    (self : LightEntity) (kwargs : Kwargs) : Cmd () :=
  (match kw_hs_color kwargs with
   | Some hs_color =>
       let simple_rgb_color := _convert_color (Some hs_color) in
       HmSelect_send_value (e_color_value_list self) FIELD_COLOR
         simple_rgb_color
   | None => cret ()
   end) ;;
  BaseHmLight_turn_on cls self kwargs.

(** [self.turn_on], by the class of [self]. *)
Definition turn_on (cls : LightClass) (self : LightEntity) (kwargs : Kwargs)
    : Cmd () :=
  match cls with
  | CeDimmer => BaseHmLight_turn_on cls self kwargs
  | CeColorDimmer => CeColorDimmer_turn_on cls self kwargs
  | CeColorDimmerEffect => CeColorDimmerEffect_turn_on cls self kwargs
  | CeColorTempDimmer => CeColorTempDimmer_turn_on cls self kwargs
  | CeIpFixedColorLight => CeIpFixedColorLight_turn_on cls self kwargs
  end.

End Light.

(** *** Vocabulary of the properties of [turn_on] *)

Module LightProps.
Import ED Light.

(** The fields a write of [turn_on] can go to, by what they carry. *)
Definition is_extra_field (field : string) : bool :=
  String.eqb field FIELD_COLOR
  || String.eqb field FIELD_COLOR_LEVEL
  || String.eqb field FIELD_PROGRAM.

Definition is_ramp_field (field : string) : bool :=
  String.eqb field FIELD_RAMP_TIME_UNIT
  || String.eqb field FIELD_RAMP_TIME_VALUE.

Definition is_on_time_field (field : string) : bool :=
  String.eqb field FIELD_ON_TIME_UNIT
  || String.eqb field FIELD_ON_TIME_VALUE.

Definition is_level_field (field : string) : bool :=
  String.eqb field FIELD_LEVEL.

Definition is_known_field (field : string) : bool :=
  is_extra_field field || is_ramp_field field
  || is_on_time_field field || is_level_field field.

(** The order the code has: colour, temperature and effect writes, then
    ramp time, then on time, then the level. *)
Definition code_phase (w : Write) : nat :=
  if is_extra_field w.1 then 0
  else if is_ramp_field w.1 then 1
  else if is_on_time_field w.1 then 2
  else 3.

(** The order of the specification: ramp time, then on time, then colour,
    temperature and effect writes, then the level. *)
Definition spec_phase (w : Write) : nat :=
  if is_ramp_field w.1 then 0
  else if is_on_time_field w.1 then 1
  else if is_extra_field w.1 then 2
  else 3.

(** The writes come in the order of their phases. *)
Fixpoint nondecreasing (phases : list nat) : bool :=
  match phases with
  | [] => true
  | p :: rest =>
      forallb (λ q, p <=? q)%nat rest && nondecreasing rest
  end.

Definition in_order (phase : Write → nat) (ws : list Write) : bool :=
  nondecreasing (phase <$> ws).

(** The entity once the colour field has the cached value [color]. *)
Definition with_color (self : LightEntity) (color : Z) : LightEntity :=
  mkLightEntity (e_level self) (e_channel_level self) (Some color)
    (e_effect self) (e_color_level self) (e_color_value_list self).

(** Some write of the list goes to a field of the given sort. *)
Definition writes_to (sort : string → bool) (ws : list Write) : bool :=
  existsb (λ w : Write, sort w.1) ws.

(** What the writes of a run of [turn_on] are, given its arguments: they
    go to fields of the four sorts and come in the order of the code; when the run returns, there is a ramp
    time write exactly when [ramp_time] was passed, an on time write
    exactly when [on_time] was passed, and a level write unless nothing
    was passed and the target brightness is the current one. *)
Record ordered_run (cls : LightClass) (self : LightEntity) (kwargs : Kwargs)
    (run : Cmd ()) : Prop := {
  or_known : forallb (λ w : Write, is_known_field w.1) run.1 = true;
  or_order : in_order code_phase run.1 = true;
  or_ramp : run.2 = Ok () →
    writes_to is_ramp_field run.1
    = bool_decide (is_Some (kw_ramp_time kwargs));
  or_on_time : run.2 = Ok () →
    writes_to is_on_time_field run.1
    = bool_decide (is_Some (kw_on_time kwargs));
  or_level : run.2 = Ok () →
    writes_to is_level_field run.1
    = negb (target_brightness cls self kwargs =? brightness cls self)
      || kwargs_truthy kwargs;
}.

End LightProps.

(** ** custom_platforms/lock.py *)

Module Lock.
Import ED Generic.

Definition HM_UNLOCKING : string := "UP".
Definition HM_LOCKING : string := "DOWN".

(** [class CeRfLock]: the switch bound to the state field and the cached
    values of the sensors bound to the direction and the error field
    ([VNone] when the value is absent). *)
Record CeRfLock : Type := mkCeRfLock {
  e_state : HmSwitch;
  e_direction : PyVal;
  e_error : PyVal;
}.

(** [value != "..."] for a cached value and a string. *)
Definition py_ne_str (value : PyVal) (s : string) : bool :=
  match value with
  | VStr s' => negb (String.eqb s' s)
  | _ => true
  end.

(** [value is not None] *)
Definition is_not_None (value : PyVal) : bool :=
  match value with
  | VNone => false
  | _ => true
  end.

(** [CeRfLock.is_locked]: [self._e_state.value is not True] *)
Definition is_locked (self : CeRfLock) : bool :=
  match HmSwitch_value (e_state self) with
  | Some true => false
  | _ => true
  end.

(** [CeRfLock.is_jammed] *)
Definition is_jammed (self : CeRfLock) : bool :=
  is_not_None (e_error self) && py_ne_str (e_error self) "NO_ERROR".

(** [CeRfLock.lock] *)
Definition lock : Cmd () := send_value FIELD_STATE (VBool false).

(** [CeRfLock.unlock] *)
Definition unlock : Cmd () := send_value FIELD_STATE (VBool true).

(** [CeRfLock.open] *)
Definition open : Cmd () := send_value FIELD_OPEN (VBool true).

End Lock.

(** ** More of entity_definition.py *)

Module Config.
Import ED.

(** [get_default_entities]: a copy of the default entities of the table. *)
Definition get_default_entities (entity_definition : EntityDefinitions)
    : gmap ChannelKey (list string) :=
  default_entities entity_definition.

(** [ExtendedConfig.required_parameters]: the parameter names of the fixed
    channels, then those of the additional entities; the dicts are walked
    in the order the maps give their items. *)
Definition required_parameters (self : ExtendedConfig) : list string :=
  (match fixed_channels self with
   | Some fixed_channels =>
       if decide (fixed_channels = ∅) then []
       else mjoin ((λ item : Z * gmap string string,
                      (map_to_list item.2).*2)
                   <$> map_to_list fixed_channels)
   | None => []
   end)
  ++ (match extended_additional_entities self with
      | Some additional_entities =>
          if decide (additional_entities = ∅) then []
          else mjoin ((λ item : ChannelKey * list string, item.2)
                      <$> map_to_list additional_entities)
      | None => []
      end).

(** A table with one kind, whose additional entities have a tuple key (the
    schema of the additional entities allows it). *)
Definition tuple_key_table : EntityDefinitions :=
  mkEntityDefinitions ∅
    (λ device_enum,
       match device_enum with
       | RF_SWITCH => Some
           (mkDeviceDef
              (Some (mkDeviceGroup (Some 0) None None None None None))
              (Some {[ CkTuple [1; 2] := ["PRESS_SHORT"] ]})
              None)
       | _ => None
       end).

(** A table with one kind, whose group has fields but no primary channel
    (the dict is not validated when it is read). *)
Definition no_primary_table : EntityDefinitions :=
  mkEntityDefinitions ∅
    (λ device_enum,
       match device_enum with
       | RF_SWITCH => Some
           (only_group
              (mkDeviceGroup None None
                 (Some {[ FIELD_STATE := "STATE" ]}) None None None))
       | _ => None
       end).

(** A factory computation that returns. *)
Definition returns {A} (m : Factory A) : Prop :=
  ∀ c, ∃ a, (m c).1 = Ok a.

(** A factory computation whose new registrations all satisfy [P], have
    identifiers the catalog did not have, and are, when it returns, the
    entities it returns, in the same order. *)
Definition registers_returned (P : CustomEntity → Prop)
    (m : Factory (list CustomEntity)) : Prop :=
  ∀ c, ∃ news,
    registered (m c).2 = registered c ++ news
    ∧ Forall P news
    ∧ Forall (λ e, unique_identifier e ∉ unique_identifier <$> registered c)
        news
    ∧ ∀ es, (m c).1 = Ok es → es = news.

(** [channel_no] is the primary channel or a secondary channel of the
    group. *)
Definition channel_of_group (group : DeviceGroup) (channel_no : Z) : Prop :=
  primary_channel group = Some channel_no
  ∨ channel_no ∈ default [] (secondary_channels group).

End Config.

(** ** More of light.py, lock.py and select.py *)

Module LightMore.
Import ED Generic Light.

(** [CeIpFixedColorLight._color_switcher] *)
Definition _color_switcher : gmap string (Q * Q) :=
  {[ "WHITE" := (0, 0)%Q;
     "RED" := (0, 100)%Q;
     "YELLOW" := (60, 100)%Q;
     "GREEN" := (120, 100)%Q;
     "TURQUOISE" := (180, 100)%Q;
     "BLUE" := (240, 100)%Q;
     "PURPLE" := (300, 100)%Q ]}.

(** [CeIpFixedColorLight.hs_color]; [color_name] is [self._e_color.value],
    the name the colour select holds, [None] when it is absent. *)
Definition CeIpFixedColorLight_hs_color (color_name : option string) : Q * Q :=
  match color_name with
  | Some name => default (0, 0)%Q (_color_switcher !! name)
  | None => (0, 0)%Q
  end.

(** [CeIpFixedColorLight.channel_hs_color] *)
Definition CeIpFixedColorLight_channel_hs_color
    (channel_color_name : option string) : option (Q * Q) :=
  match channel_color_name with
  | Some name => Some (default (0, 0)%Q (_color_switcher !! name))
  | None => None
  end.

(** The entity once the level field has the cached value [level]. *)
Definition with_level (self : LightEntity) (level : Q) : LightEntity :=
  mkLightEntity (Some level) (e_channel_level self) (e_color self)
    (e_effect self) (e_color_level self) (e_color_value_list self).

(** The entity once the effect field has the cached value [index]. *)
Definition with_effect (self : LightEntity) (index : Z) : LightEntity :=
  mkLightEntity (e_level self) (e_channel_level self) (e_color self)
    (Some index) (e_color_level self) (e_color_value_list self).

(** [HmSelect.send_value] for a value that is an [int]: with a non-empty
    value list the value is sent when it is an index of the list; with no
    value list a warning is logged. *)
Definition HmSelect_send_value_int (attr_value_list : option (list string))
    (field : string) (value : Z) : Cmd () :=
  match attr_value_list with
  | Some ((_ :: _) as value_list) =>
      if (0 <=? value) && (value <? Z.of_nat (length value_list))
      then send_value field (VInt value)
      else cret ()
  | _ => cret ()
  end.

End LightMore.

Module LockMore.
Import ED Generic Lock.

Definition LOCK_STATE_LOCKED : string := "LOCKED".
Definition LOCK_TARGET_LEVEL_LOCKED : string := "LOCKED".
Definition LOCK_TARGET_LEVEL_UNLOCKED : string := "UNLOCKED".
Definition LOCK_TARGET_LEVEL_OPEN : string := "OPEN".

(** [str(value) == s] for a cached value that is not [None] and a name [s]
    made of letters: the text of a bool is [True] or [False], the text of
    an int is its decimal numeral, the text of a float always has a digit
    or is [inf] or [nan], so it is no such name. *)
Definition py_str_is (value : PyVal) (s : string) : bool :=
  match value with
  | VNone => String.eqb "None" s
  | VBool b => String.eqb (if b then "True" else "False") s
  | VInt z => String.eqb (pretty z) s
  | VFloat _ => false
  | VStr s' => String.eqb s' s
  end.

(** [value == s] for a cached value and a string. *)
Definition py_eq_str (value : PyVal) (s : string) : bool :=
  match value with
  | VStr s' => String.eqb s' s
  | _ => false
  end.

(** [CeRfLock.is_locking]: a bool, or [None] when the direction has no
    value. *)
Definition is_locking (self : CeRfLock) : option bool :=
  if is_not_None (e_direction self)
  then Some (py_str_is (e_direction self) HM_LOCKING)
  else None.

(** [CeRfLock.is_unlocking] *)
Definition is_unlocking (self : CeRfLock) : option bool :=
  if is_not_None (e_direction self)
  then Some (py_str_is (e_direction self) HM_UNLOCKING)
  else None.

(** [class CeIpLock]: the cached values of the sensors bound to the lock
    state and the direction. *)
Record CeIpLock : Type := mkCeIpLock {
  ip_lock_state : PyVal;
  ip_direction : PyVal;
}.

(** [CeIpLock.is_locked] *)
Definition CeIpLock_is_locked (self : CeIpLock) : bool :=
  py_eq_str (ip_lock_state self) LOCK_STATE_LOCKED.

(** [CeIpLock.is_locking] *)
Definition CeIpLock_is_locking (self : CeIpLock) : option bool :=
  if is_not_None (ip_direction self)
  then Some (py_str_is (ip_direction self) HM_LOCKING)
  else None.

(** [CeIpLock.is_unlocking] *)
Definition CeIpLock_is_unlocking (self : CeIpLock) : option bool :=
  if is_not_None (ip_direction self)
  then Some (py_str_is (ip_direction self) HM_UNLOCKING)
  else None.

(** [CeIpLock.is_jammed] *)
Definition CeIpLock_is_jammed (self : CeIpLock) : bool := false.

(** [CeIpLock.lock], [unlock], [open] *)
Definition CeIpLock_lock : Cmd () :=
  send_value FIELD_LOCK_TARGET_LEVEL (VStr LOCK_TARGET_LEVEL_LOCKED).

Definition CeIpLock_unlock : Cmd () :=
  send_value FIELD_LOCK_TARGET_LEVEL (VStr LOCK_TARGET_LEVEL_UNLOCKED).

Definition CeIpLock_open : Cmd () :=
  send_value FIELD_LOCK_TARGET_LEVEL (VStr LOCK_TARGET_LEVEL_OPEN).

End LockMore.
Module EDFacts.
Import ED.

(** *** The rebasing loop, read through lookups *)

Lemma rebase_fold_lookup {A} (b : Z) (m : gmap Z A) (k : Z) :
  map_fold (λ channel_no field new_fields, <[channel_no + b := field]> new_fields)
    (∅ : gmap Z A) m !! k = m !! (k - b).
Proof.
  revert k.
  apply (map_fold_weak_ind
    (λ (r m : gmap Z A), ∀ k, r !! k = m !! (k - b))).
  - intros k. by rewrite !lookup_empty.
  - intros i x m' r Hfresh IH k.
    destruct (decide (k = i + b)) as [->|Hne].
    + replace (i + b - b) with i by lia. by rewrite !lookup_insert_eq.
    + rewrite !lookup_insert_ne by lia. apply IH.
Qed.

Lemma rebase_entity_dict_lookup sel (group : DeviceGroup) (b k : Z) :
  _rebase_entity_dict sel group b !! k = default ∅ (sel group) !! (k - b).
Proof.
  unfold _rebase_entity_dict.
  destruct (sel group) as [flds|]; simpl; [|by rewrite !lookup_empty].
  destruct (decide (flds = ∅)) as [->|_]; [by rewrite !lookup_empty|].
  apply rebase_fold_lookup.
Qed.

Lemma shifted_keys_intro {A} (b : Z) (orig rebased : gmap Z A) :
  (∀ k, rebased !! k = orig !! (k - b)) → shifted_keys b orig rebased.
Proof.
  intros H. split.
  - intros k. rewrite H. f_equal. lia.
  - intros k' v Hk'. exists (k' - b). split; [lia|]. by rewrite <- H.
Qed.

Lemma shifted_keys_zero {A} (m : gmap Z A) : shifted_keys 0 m m.
Proof.
  apply shifted_keys_intro. intros k. f_equal. lia.
Qed.

Section AnyTable.

Variable defs : EntityDefinitions.

Lemma get_device_group_rebased device_enum device orig p b :
  _get_device defs device_enum = Some device →
  device_group device = Some orig →
  primary_channel orig = Some p →
  ∃ rebased,
    _get_device_group defs device_enum b = Ok rebased
    ∧ rebased_by b orig rebased.
Proof.
  intros Hdev Hgrp Hprim.
  unfold _get_device_group. rewrite Hdev, Hgrp.
  assert (Htrue : group_truthy orig = true).
  { unfold group_truthy. rewrite Hprim. done. }
  rewrite Htrue. simpl.
  destruct (Z.eqb_spec b 0) as [->|Hb].
  - exists orig. split; [done|]. split; try done.
    + rewrite Hprim. simpl. f_equal. lia.
    + destruct (secondary_channels orig) as [l|]; simpl; [|done].
      f_equal. induction l as [|x l IH]; simpl; [done|].
      f_equal; [lia|done].
    + apply shifted_keys_zero.
    + apply shifted_keys_zero.
  - rewrite Hprim. eexists. split; [done|].
    destruct (secondary_channels orig) as [[|x l]|] eqn:Hsec;
      (split; simpl; rewrite ?Hprim, ?Hsec; try done;
       apply shifted_keys_intro; intros k;
       by rewrite rebase_entity_dict_lookup).
Qed.

(** A kind that the table does not define at all: the lookup of the
    primary channel in the empty dict raises. *)
Lemma get_device_group_undefined device_enum b :
  _get_device defs device_enum = None →
  _get_device_group defs device_enum b = Raise (KeyError ED_PRIMARY_CHANNEL).
Proof.
  intros Hdev. unfold _get_device_group. by rewrite Hdev.
Qed.

(** The sibling path: an entry whose group is the empty dict gives the
    empty dict back, for every base channel. *)
Lemma get_device_group_empty_group device_enum device b :
  _get_device defs device_enum = Some device →
  device_group device = Some empty_group →
  _get_device_group defs device_enum b = Ok empty_group.
Proof.
  intros Hdev Hgrp. unfold _get_device_group. by rewrite Hdev, Hgrp.
Qed.

End AnyTable.

(** *** The shipped table *)

Lemma shipped_group_has_primary device_enum device :
  _get_device entity_definition device_enum = Some device →
  ∃ orig p, device_group device = Some orig ∧ primary_channel orig = Some p.
Proof.
  destruct device_enum; simpl; intros [= <-]; simpl; eauto.
Qed.

(** The only kind of the enumeration without an entry is [RF_SIREN]. *)
Lemma shipped_undefined_kind device_enum :
  _get_device entity_definition device_enum = None ↔ device_enum = RF_SIREN.
Proof.
  split; [|by intros ->].
  by destruct device_enum.
Qed.

(** C1. Channel rebasing is additive and the identity at zero: for every
    kind that has a device group in the table and every base offset [b],
    [_get_device_group] returns a group [rebased] such that: if [b = 0] it
    is the group [orig] of the table unchanged; its primary channel is the
    primary channel of [orig] plus [b]; its secondary channels are those of
    [orig], each plus [b]; the channel keys of its [fields] and
    [visible_fields] are exactly the keys of [orig] plus [b], each with the
    field-to-parameter map it had. (Nothing needs [b] to be non-negative.) *)
Theorem rebase_additive (device_enum : EntityDefinition) (device : DeviceDef)
    (b : Z) :
  _get_device entity_definition device_enum = Some device →
  ∃ orig rebased p,
    device_group device = Some orig
    ∧ _get_device_group entity_definition device_enum b = Ok rebased
    ∧ (b = 0 → rebased = orig)
    ∧ primary_channel orig = Some p
    ∧ primary_channel rebased = Some (p + b)
    ∧ secondary_channels rebased
      = (λ l : list Z, (λ x, x + b) <$> l) <$> secondary_channels orig
    ∧ (∀ k, default ∅ (fields rebased) !! (k + b)
            = default ∅ (fields orig) !! k)
    ∧ (∀ k' v, default ∅ (fields rebased) !! k' = Some v →
         ∃ k, k' = k + b ∧ default ∅ (fields orig) !! k = Some v)
    ∧ (∀ k, default ∅ (visible_fields rebased) !! (k + b)
            = default ∅ (visible_fields orig) !! k)
    ∧ (∀ k' v, default ∅ (visible_fields rebased) !! k' = Some v →
         ∃ k, k' = k + b ∧ default ∅ (visible_fields orig) !! k = Some v).
Proof.
  intros Hdev.
  destruct (shipped_group_has_primary _ _ Hdev) as (orig & p & Hgrp & Hprim).
  destruct (get_device_group_rebased entity_definition _ _ _ _ b Hdev Hgrp Hprim)
    as (rebased & Hget & [Hid Hp Hs [Hf1 Hf2] [Hv1 Hv2] _ _]).
  exists orig, rebased, p.
  rewrite Hprim in Hp. by repeat split.
Qed.

Lemma rebase_additive_witness :
  ∃ orig rebased p,
    device_group (only_group
      (mkDeviceGroup (Some 1) (Some [2; 3]) (Some dimmer_fields) None None
         (Some {[ 0 := {[ FIELD_CHANNEL_LEVEL := "LEVEL" ]} ]}))) = Some orig
    ∧ _get_device_group entity_definition IP_DIMMER 3 = Ok rebased
    ∧ (3 = 0 → rebased = orig)
    ∧ primary_channel orig = Some p
    ∧ primary_channel rebased = Some (p + 3)
    ∧ secondary_channels rebased
      = (λ l : list Z, (λ x, x + 3) <$> l) <$> secondary_channels orig
    ∧ (∀ k, default ∅ (fields rebased) !! (k + 3)
            = default ∅ (fields orig) !! k)
    ∧ (∀ k' v, default ∅ (fields rebased) !! k' = Some v →
         ∃ k, k' = k + 3 ∧ default ∅ (fields orig) !! k = Some v)
    ∧ (∀ k, default ∅ (visible_fields rebased) !! (k + 3)
            = default ∅ (visible_fields orig) !! k)
    ∧ (∀ k' v, default ∅ (visible_fields rebased) !! k' = Some v →
         ∃ k, k' = k + 3 ∧ default ∅ (visible_fields orig) !! k = Some v).
Proof.
  apply (rebase_additive IP_DIMMER). reflexivity.
Defined.

(** The end-to-end figures of the dimmer at base channel 3. *)
Example ip_dimmer_at_3 :
  (λ g, (primary_channel g, secondary_channels g))
    <$> (match _get_device_group entity_definition IP_DIMMER 3 with
         | Ok g => Some g
         | Raise _ => None
         end)
  = Some (Some 4, Some [5; 6]).
Proof. reflexivity. Qed.

(** C4. A kind without a device-group definition in the table: the claim
    is that rebasing gives the empty schema; the code raises [KeyError] for
    every such kind and every base channel. *)
Theorem undefined_kind_raises (device_enum : EntityDefinition) (b : Z) :
  device_definitions entity_definition device_enum = None →
  _get_device_group entity_definition device_enum b
  = Raise (KeyError ED_PRIMARY_CHANNEL).
Proof.
  intros Hnone. apply get_device_group_undefined.
  unfold _get_device. by rewrite Hnone.
Qed.

(** The factory on such a kind raises as well, and registers nothing. *)
Example rf_siren_factory_raises :
  make_custom_entity entity_definition (λ address, address)
    two_channel_device binds_state RF_SIREN [0] None empty_catalog
  = (Raise (KeyError ED_PRIMARY_CHANNEL), empty_catalog).
Proof. reflexivity. Qed.

Lemma undefined_kind_raises_witness :
  _get_device_group entity_definition RF_SIREN 0
  = Raise (KeyError "primary_channel").
Proof.
  apply (undefined_kind_raises RF_SIREN 0). reflexivity.
Defined.

End EDFacts.

(** ** The entity factory *)

Module FactoryFacts.
Import ED.

Lemma extends_refl c : extends c c.
Proof. exists []. by rewrite app_nil_r. Qed.

Lemma extends_trans c1 c2 c3 : extends c1 c2 → extends c2 c3 → extends c1 c3.
Proof.
  intros [k1 H1] [k2 H2]. exists (k1 ++ k2).
  by rewrite H2, H1, <- app_assoc.
Qed.

Lemma extends_registered c c1 c2 :
  registered c1 = registered c2 → extends c c1 → extends c c2.
Proof. intros Heq [k Hk]. exists k. by rewrite <- Heq. Qed.

Lemma has_entity_mono c c' uid :
  extends c c' → has_entity c uid = true → has_entity c' uid = true.
Proof.
  intros [k Hk]. unfold has_entity. rewrite !bool_decide_eq_true.
  rewrite Hk, fmap_app, elem_of_app. by left.
Qed.

Lemma has_entity_add e c : has_entity (add_entity e c) (unique_identifier e) = true.
Proof.
  unfold has_entity. rewrite bool_decide_eq_true. simpl.
  rewrite fmap_app, elem_of_app. right. simpl. apply list_elem_of_here.
Qed.

Lemma has_entity_note e c uid :
  has_entity (note_instantiated e c) uid = has_entity c uid.
Proof. done. Qed.

(** *** The three properties pass through the combinators *)

Lemma idempotent_lift_bind {X A} (r : result X) (k : X → Factory (list A)) :
  (∀ x, idempotent (k x)) → idempotent (fbind (lift r) k).
Proof.
  intros Hk. destruct r as [x|e].
  - destruct (Hk x) as [Hg Hq Hu]. split; unfold fbind, lift; simpl.
    + apply Hg.
    + apply Hq.
    + apply Hu.
  - split; unfold fbind, lift; simpl.
    + apply extends_refl.
    + done.
    + done.
Qed.

Lemma for_each_cons {A B} (x : A) (xs : list A) (body : A → Factory (list B)) c :
  for_each (x :: xs) body c
  = match body x c with
    | (Ok entities, c1) =>
        match for_each xs body c1 with
        | (Ok more, c2) => (Ok (entities ++ more), c2)
        | (Raise e, c2) => (Raise e, c2)
        end
    | (Raise e, c1) => (Raise e, c1)
    end.
Proof.
  simpl. unfold fbind, fret.
  destruct (body x c) as [[es|e] c1]; [|done].
  by destruct (for_each xs body c1) as [[more|e] c2].
Qed.

Lemma idempotent_for_each {A B} (xs : list A) (body : A → Factory (list B)) :
  (∀ x, idempotent (body x)) → idempotent (for_each xs body).
Proof.
  intros Hbody. induction xs as [|x xs IH].
  - split; simpl; unfold fret; simpl.
    + intros c. apply extends_refl.
    + done.
    + done.
  - destruct (Hbody x) as [Hg Hq Hu]. destruct IH as [IHg IHq IHu].
    split.
    + intros c. rewrite for_each_cons.
      specialize (Hg c). destruct (body x c) as [[es|e] c1]; simpl in *; [|done].
      specialize (IHg c1).
      destruct (for_each xs body c1) as [[more|e] c2]; simpl in *;
        by eapply extends_trans.
    + intros c c2. rewrite !for_each_cons.
      specialize (Hq c c2). specialize (IHg (body x c).2).
      destruct (body x c) as [[es|e] c1]; simpl in *.
      * specialize (IHq c1).
        destruct (for_each xs body c1) as [[more|e] c1'] eqn:Hrest;
          simpl in *; intros Hext.
        -- destruct Hq as [Hreg Hres]; [by eapply extends_trans|].
           destruct (body x c2) as [r2 c2']; simpl in *; subst r2.
           destruct (IHq c2') as [Hreg' Hres'].
           { by eapply extends_registered. }
           destruct (for_each xs body c2') as [r3 c3]; simpl in *; subst r3.
           simpl. split; [congruence|done].
        -- destruct Hq as [Hreg Hres]; [by eapply extends_trans|].
           destruct (body x c2) as [r2 c2']; simpl in *; subst r2.
           destruct (IHq c2') as [Hreg' Hres'].
           { by eapply extends_registered. }
           destruct (for_each xs body c2') as [r3 c3]; simpl in *; subst r3.
           simpl. split; [congruence|done].
      * intros Hext. destruct Hq as [Hreg Hres]; [done|].
        destruct (body x c2) as [r2 c2']; simpl in *; by subst r2.
    + intros c Hc. rewrite for_each_cons.
      specialize (Hu c Hc). destruct (body x c) as [[es|e] c1]; simpl in *; [|done].
      specialize (IHu c1 Hu).
      by destruct (for_each xs body c1) as [[more|e] c2].
Qed.

Section Create.

Variable generate_unique_identifier : string → string.

Lemma idempotent_create_entities device custom_entity_class device_enum
    device_def entity_def channel_no extended :
  idempotent (_create_entities generate_unique_identifier device
                custom_entity_class device_enum device_def entity_def
                channel_no extended).
Proof.
  set (uid := generate_unique_identifier (channel_address device channel_no)).
  split.
  - intros c. unfold _create_entities. fold uid.
    repeat case_match; simpl; try apply extends_refl.
    + eexists. reflexivity.
    + exists []. simpl. by rewrite app_nil_r.
  - intros c c2. unfold _create_entities. fold uid.
    set (entity := instantiate custom_entity_class device uid device_enum
                     device_def entity_def channel_no extended).
    destruct (has_entity c uid) eqn:Hhas.
    { cbn [fst snd]. intros Hext.
      by rewrite (has_entity_mono _ _ _ Hext Hhas). }
    destruct (bool_decide (channel_address device channel_no ∉ channels device))
      eqn:Hchan.
    { cbn [fst snd]. intros Hext. by destruct (has_entity c2 uid). }
    destruct (bool_decide (0 < length (data_entities entity))%nat) eqn:Hbound.
    + cbn [fst snd]. intros Hext.
      rewrite (has_entity_mono _ c2 uid Hext); [done|].
      apply (has_entity_add entity).
    + cbn [fst snd]. intros _. by destruct (has_entity c2 uid).
  - intros c Hc. unfold _create_entities. fold uid.
    destruct (has_entity c uid) eqn:Hhas; simpl; [done|].
    repeat case_match; simpl; try done.
    unfold unique_ids in *. simpl. rewrite fmap_app. simpl.
    apply NoDup_app. split; [done|]. split; [|apply NoDup_singleton].
    intros u Hu ->%list_elem_of_singleton.
    unfold has_entity in Hhas. by apply bool_decide_eq_false in Hhas.
Qed.

(** A missing channel: nothing is instantiated, nothing is registered. *)
Lemma create_entities_missing_channel device custom_entity_class device_enum
    device_def entity_def channel_no extended c :
  channel_address device channel_no ∉ channels device →
  _create_entities generate_unique_identifier device custom_entity_class
    device_enum device_def entity_def channel_no extended c
  = (Ok [], c).
Proof.
  intros Hmissing. unfold _create_entities.
  destruct (has_entity c _); [done|].
  by rewrite (bool_decide_eq_true_2 _ Hmissing).
Qed.

Lemma creates_only_create_entities (P : CustomEntity → Prop) device
    custom_entity_class device_enum device_def entity_def channel_no extended :
  (channel_address device channel_no ∈ channels device →
   P (instantiate custom_entity_class device
        (generate_unique_identifier (channel_address device channel_no))
        device_enum device_def entity_def channel_no extended)) →
  creates_only P
    (_create_entities generate_unique_identifier device custom_entity_class
       device_enum device_def entity_def channel_no extended)
    (λ es, es).
Proof.
  intros HP.
  split; intros c; unfold _create_entities.
  - destruct (has_entity c _).
    { exists []. split; [by rewrite app_nil_r|constructor]. }
    case_bool_decide as Hchan.
    { exists []. split; [by rewrite app_nil_r|constructor]. }
    case_bool_decide; (eexists [_]; split; [reflexivity|]);
      by repeat constructor; apply HP.
  - destruct (has_entity c _).
    { exists []. split; [by rewrite app_nil_r|constructor]. }
    case_bool_decide as Hchan.
    { exists []. split; [by rewrite app_nil_r|constructor]. }
    case_bool_decide.
    + eexists [_]. split; [reflexivity|]. by repeat constructor; apply HP.
    + exists []. split; [by rewrite app_nil_r|constructor].
  - destruct (has_entity c _); [constructor|].
    case_bool_decide as Hchan; [constructor|].
    case_bool_decide; simpl; by repeat constructor; apply HP.
Qed.

End Create.

Lemma creates_only_lift_bind {X A} P (r : result X) (k : X → Factory A) ret :
  (∀ x, r = Ok x → creates_only P (k x) ret) →
  creates_only P (fbind (lift r) k) ret.
Proof.
  intros Hk. destruct r as [x|e].
  - destruct (Hk x eq_refl) as [Hi Hg Hr].
    split; unfold fbind, lift; simpl; done.
  - split; unfold fbind, lift; simpl; [| |done];
      intros c; exists []; (split; [by rewrite app_nil_r|constructor]).
Qed.

Lemma creates_only_for_each {A} P (xs : list A)
    (body : A → Factory (list CustomEntity)) :
  (∀ x, creates_only P (body x) (λ es, es)) →
  creates_only P (for_each xs body) (λ es, es).
Proof.
  intros Hbody. induction xs as [|x xs IH].
  - split; intros c; simpl; [| |constructor];
      exists []; (split; [by rewrite app_nil_r|constructor]).
  - destruct (Hbody x) as [Hi Hg Hr]. destruct IH as [IHi IHg IHr].
    split; intros c; rewrite for_each_cons;
      specialize (Hi c); specialize (Hg c); specialize (Hr c);
      destruct (body x c) as [[es|e] c1]; simpl in *; try done;
      specialize (IHi c1); specialize (IHg c1); specialize (IHr c1);
      destruct (for_each xs body c1) as [[more|e] c2]; simpl in *; try done.
    + destruct Hi as (n1 & Hn1 & H1). destruct IHi as (n2 & Hn2 & H2).
      exists (n1 ++ n2).
      split; [by rewrite Hn2, Hn1, app_assoc|by apply Forall_app].
    + destruct Hi as (n1 & Hn1 & H1). destruct IHi as (n2 & Hn2 & H2).
      exists (n1 ++ n2).
      split; [by rewrite Hn2, Hn1, app_assoc|by apply Forall_app].
    + destruct Hg as (n1 & Hn1 & H1). destruct IHg as (n2 & Hn2 & H2).
      exists (n1 ++ n2).
      split; [by rewrite Hn2, Hn1, app_assoc|by apply Forall_app].
    + destruct Hg as (n1 & Hn1 & H1). destruct IHg as (n2 & Hn2 & H2).
      exists (n1 ++ n2).
      split; [by rewrite Hn2, Hn1, app_assoc|by apply Forall_app].
    + by apply Forall_app.
Qed.

(** *** Rebasing the additional entities *)

Lemma additional_fold_int_keys {V} (b : Z) (m : gmap ChannelKey V) :
  (∀ k, is_Some (m !! k) → ∃ z, k = CkInt z) →
  ∃ n : gmap Z V,
    map_fold
      (λ channel_no field acc,
         result_bind acc (λ new_entities,
         result_bind (key_add channel_no b) (λ k,
         Ok (<[k := field]> new_entities))))
      (Ok ∅) m = Ok n
    ∧ ∀ k, n !! k = m !! CkInt (k - b).
Proof.
  apply (map_fold_weak_ind
    (λ (r : result (gmap Z V)) (m : gmap ChannelKey V),
       (∀ k, is_Some (m !! k) → ∃ z, k = CkInt z) →
       ∃ n, r = Ok n ∧ ∀ k, n !! k = m !! CkInt (k - b))).
  - intros _. exists ∅. split; [done|]. intros k. by rewrite !lookup_empty.
  - intros i x m' r Hfresh IH Hint.
    destruct (Hint i) as [z ->]; [by rewrite lookup_insert_eq|].
    destruct IH as (n & -> & Hn).
    { intros k Hk. apply Hint. rewrite lookup_insert_ne; [done|].
      intros <-. rewrite Hfresh in Hk. by destruct Hk. }
    simpl. eexists. split; [done|]. intros k.
    destruct (decide (k = z + b)) as [->|Hne].
    + replace (z + b - b) with z by lia. by rewrite !lookup_insert_eq.
    + rewrite !lookup_insert_ne; [apply Hn|intros [= ?]; lia|lia].
Qed.

Lemma additional_fold_tuple_key {V} (b : Z) (m : gmap ChannelKey V) :
  (∃ l, is_Some (m !! CkTuple l)) →
  map_fold
    (λ channel_no field acc,
       result_bind acc (λ new_entities,
       result_bind (key_add channel_no b) (λ k,
       Ok (<[k := field]> new_entities))))
    (Ok (∅ : gmap Z V)) m = Raise TypeError.
Proof.
  apply (map_fold_weak_ind
    (λ (r : result (gmap Z V)) (m : gmap ChannelKey V),
       ((∃ n, r = Ok n) ∨ r = Raise TypeError)
       ∧ ((∃ l, is_Some (m !! CkTuple l)) → r = Raise TypeError))).
  - split; [left; by eexists|]. intros [l Hl].
    rewrite lookup_empty in Hl. by destruct Hl.
  - intros i x m' r Hfresh [Hshape IH]. split.
    + destruct Hshape as [[n ->]| ->]; [|by right].
      destruct i; simpl; [left; by eexists|by right].
    + intros [l Hl]. destruct (decide (i = CkTuple l)) as [->|Hne].
      * destruct Hshape as [[n ->]| ->]; done.
      * rewrite lookup_insert_ne in Hl by done.
        rewrite IH; [done|by exists l].
Qed.

Section AnyTable.

Variable defs : EntityDefinitions.
Variable generate_unique_identifier : string → string.

Lemma get_device_entities_int_keys device_enum b :
  (∀ k, is_Some (additional_of defs device_enum !! k) → ∃ z, k = CkInt z) →
  ∃ entity_def,
    _get_device_entities defs device_enum b = Ok entity_def
    ∧ ∀ k, entity_def !! k = additional_of defs device_enum !! CkInt (k - b).
Proof.
  intros Hint. unfold _get_device_entities.
  assert (Hadd : match device_definitions defs device_enum with
                 | Some device => default ∅ (additional_entities device)
                 | None => ∅
                 end = additional_of defs device_enum).
  { unfold additional_of. by destruct (device_definitions defs device_enum). }
  rewrite Hadd. case_decide as Hempty.
  - exists ∅. split; [done|]. intros k. by rewrite Hempty, !lookup_empty.
  - by apply additional_fold_int_keys.
Qed.

(** A tuple key among the additional entities of a kind: [tuple + int]
    raises. *)
Lemma get_device_entities_tuple_key device_enum b l :
  is_Some (additional_of defs device_enum !! CkTuple l) →
  _get_device_entities defs device_enum b = Raise TypeError.
Proof.
  intros Hl. unfold _get_device_entities.
  assert (Hadd : match device_definitions defs device_enum with
                 | Some device => default ∅ (additional_entities device)
                 | None => ∅
                 end = additional_of defs device_enum).
  { unfold additional_of. by destruct (device_definitions defs device_enum). }
  rewrite Hadd. case_decide as Hempty.
  - rewrite Hempty, lookup_empty in Hl. by destruct Hl.
  - apply additional_fold_tuple_key. by exists l.
Qed.

Lemma idempotent_make_custom_entity device custom_entity_class device_enum
    group_base_channels extended :
  idempotent (make_custom_entity defs generate_unique_identifier device
                custom_entity_class device_enum group_base_channels extended).
Proof.
  unfold make_custom_entity.
  apply idempotent_lift_bind; intros entity_def.
  apply idempotent_for_each; intros base_channel.
  apply idempotent_lift_bind; intros device_def.
  apply idempotent_lift_bind; intros primary.
  apply idempotent_for_each; intros channel_no.
  apply idempotent_create_entities.
Qed.

Lemma creates_only_make_custom_entity device custom_entity_class device_enum
    first rest extended entity_def :
  _get_device_entities defs device_enum first = Ok entity_def →
  creates_only (λ e, ce_entity_def e = entity_def)
    (make_custom_entity defs generate_unique_identifier device
       custom_entity_class device_enum (first :: rest) extended)
    (λ es, es).
Proof.
  intros Hdef. unfold make_custom_entity. rewrite Hdef.
  apply creates_only_lift_bind; intros ? [= <-].
  apply creates_only_for_each; intros base_channel.
  apply creates_only_lift_bind; intros device_def _.
  apply creates_only_lift_bind; intros primary _.
  apply creates_only_for_each; intros channel_no.
  by apply creates_only_create_entities.
Qed.

Lemma existing_channels_make_custom_entity device custom_entity_class
    device_enum group_base_channels extended :
  creates_only
    (λ e, channel_address device (ce_channel_no e) ∈ channels device)
    (make_custom_entity defs generate_unique_identifier device
       custom_entity_class device_enum group_base_channels extended)
    (λ es, es).
Proof.
  unfold make_custom_entity.
  apply creates_only_lift_bind; intros entity_def _.
  apply creates_only_for_each; intros base_channel.
  apply creates_only_lift_bind; intros device_def _.
  apply creates_only_lift_bind; intros primary _.
  apply creates_only_for_each; intros channel_no.
  by apply creates_only_create_entities.
Qed.

End AnyTable.

(** In the shipped table every key of the additional entities of a kind is
    a single channel number. *)
Lemma shipped_additional_int_keys device_enum k :
  is_Some (additional_of entity_definition device_enum !! k) →
  ∃ z, k = CkInt z.
Proof.
  intros [v Hv]. unfold additional_of in Hv.
  destruct device_enum; simpl in Hv;
    first [ by rewrite lookup_empty in Hv
          | apply lookup_singleton_Some in Hv as [<- _]; by eexists ].
Qed.

(** C2. Composition is idempotent: for every table, device, class, kind,
    tuple of base channels and catalog whose identifiers are unique,
    running [make_custom_entity] a second time with the same arguments
    registers no further entity (the list of registrations is unchanged),
    returns no entity when the first run returned, raises the same
    exception when the first run raised, and the registered entities still
    have pairwise different unique identifiers: an entity whose identifier
    the catalog already has is skipped. *)
Theorem composition_idempotent (defs : EntityDefinitions)
    (generate_unique_identifier : string → string) (device : HmDevice)
    (custom_entity_class : EntityClass) (device_enum : EntityDefinition)
    (group_base_channels : list Z) (extended : option ExtendedConfig)
    (c : Catalog) :
  unique_ids c →
  let first :=
    make_custom_entity defs generate_unique_identifier device
      custom_entity_class device_enum group_base_channels extended c in
  let second :=
    make_custom_entity defs generate_unique_identifier device
      custom_entity_class device_enum group_base_channels extended first.2 in
  registered second.2 = registered first.2
  ∧ match first.1 with
    | Ok _ => second.1 = Ok []
    | Raise e => second.1 = Raise e
    end
  ∧ unique_ids first.2
  ∧ unique_ids second.2.
Proof.
  intros Hc first second.
  destruct (idempotent_make_custom_entity defs generate_unique_identifier
              device custom_entity_class device_enum group_base_channels
              extended) as [Hg Hq Hu].
  destruct (Hq c first.2 (extends_refl _)) as [Hreg Hres].
  split; [done|]. split; [done|]. split; apply Hu; [done|by apply Hu].
Qed.

Lemma composition_idempotent_witness :
  let first :=
    make_custom_entity entity_definition (λ address, address)
      two_channel_device binds_state IP_DIMMER [0] None empty_catalog in
  let second :=
    make_custom_entity entity_definition (λ address, address)
      two_channel_device binds_state IP_DIMMER [0] None first.2 in
  registered second.2 = registered first.2
  ∧ match first.1 with
    | Ok _ => second.1 = Ok []
    | Raise e => second.1 = Raise e
    end
  ∧ unique_ids first.2
  ∧ unique_ids second.2.
Proof.
  apply (composition_idempotent entity_definition (λ address, address)
           two_channel_device binds_state IP_DIMMER [0] None empty_catalog).
  apply NoDup_nil_2.
Defined.

(** The dimmer at base channel 0 on a device with the channels 1 and 2:
    two entities the first time (channel 3 does not exist), none the
    second time. *)
Example dimmer_composed_twice :
  let first :=
    make_custom_entity entity_definition (λ address, address)
      two_channel_device binds_state IP_DIMMER [0] None empty_catalog in
  let second :=
    make_custom_entity entity_definition (λ address, address)
      two_channel_device binds_state IP_DIMMER [0] None first.2 in
  length (registered first.2) = 2%nat
  ∧ second.1 = Ok []
  ∧ length (registered second.2) = 2%nat.
Proof. vm_compute. done. Qed.

(** C9. A channel the device does not have: for every device and channel
    number whose address is not among the channels of the device,
    [_create_entities] returns no entity and leaves the catalog as it was
    (no constructor call, no [add_entity]); and a whole run of
    [make_custom_entity] instantiates, registers and returns no entity
    for that channel number. *)
Theorem missing_channel_composes_nothing (defs : EntityDefinitions)
    (generate_unique_identifier : string → string) (device : HmDevice)
    (custom_entity_class : EntityClass) (device_enum : EntityDefinition)
    (group_base_channels : list Z) (extended : option ExtendedConfig)
    (channel_no : Z) (c : Catalog) :
  channel_address device channel_no ∉ channels device →
  (∀ device_def entity_def,
     _create_entities generate_unique_identifier device custom_entity_class
       device_enum device_def entity_def channel_no extended c
     = (Ok [], c))
  ∧ let run :=
      make_custom_entity defs generate_unique_identifier device
        custom_entity_class device_enum group_base_channels extended c in
    (∃ news, instantiated run.2 = instantiated c ++ news
             ∧ Forall (λ e, ce_channel_no e ≠ channel_no) news)
    ∧ (∃ news, registered run.2 = registered c ++ news
               ∧ Forall (λ e, ce_channel_no e ≠ channel_no) news)
    ∧ match run.1 with
      | Ok es => Forall (λ e, ce_channel_no e ≠ channel_no) es
      | Raise _ => True
      end.
Proof.
  intros Hmissing. split.
  { intros device_def entity_def. by apply create_entities_missing_channel. }
  intros run.
  destruct (existing_channels_make_custom_entity defs
              generate_unique_identifier device custom_entity_class
              device_enum group_base_channels extended) as [Hi Hg Hr].
  assert (Hweak : ∀ es : list CustomEntity,
    Forall (λ e, channel_address device (ce_channel_no e) ∈ channels device) es →
    Forall (λ e, ce_channel_no e ≠ channel_no) es).
  { intros es Hes. eapply Forall_impl; [exact Hes|].
    simpl. intros e He Heq. by rewrite Heq in He. }
  split; [|split].
  - destruct (Hi c) as (news & ? & ?). exists news. split; [done|by apply Hweak].
  - destruct (Hg c) as (news & ? & ?). exists news. split; [done|by apply Hweak].
  - specialize (Hr c). fold run in Hr. destruct run.1; [by apply Hweak|done].
Qed.

Lemma missing_channel_composes_nothing_witness :
  (∀ device_def entity_def,
     _create_entities (λ address, address) two_channel_device binds_state
       IP_DIMMER device_def entity_def 3 None empty_catalog
     = (Ok [], empty_catalog))
  ∧ let run :=
      make_custom_entity entity_definition (λ address, address)
        two_channel_device binds_state IP_DIMMER [0] None empty_catalog in
    (∃ news, instantiated run.2 = instantiated empty_catalog ++ news
             ∧ Forall (λ e, ce_channel_no e ≠ 3) news)
    ∧ (∃ news, registered run.2 = registered empty_catalog ++ news
               ∧ Forall (λ e, ce_channel_no e ≠ 3) news)
    ∧ match run.1 with
      | Ok es => Forall (λ e, ce_channel_no e ≠ 3) es
      | Raise _ => True
      end.
Proof.
  apply (missing_channel_composes_nothing entity_definition
           (λ address, address) two_channel_device binds_state IP_DIMMER
           [0] None 3 empty_catalog).
  compute_done.
Defined.

(** C3, as the code has it. For every call of the factory on the shipped
    table with the base channels [first :: rest], the additional entities
    of the kind are rebased once, by [first], the first base channel:
    [_get_device_entities] returns a map whose keys are exactly the channel
    keys of the table plus [first], each with the parameter names it had;
    and every entity the call instantiates or returns, for whichever base
    channel of the sequence, is given that one map. *)
Theorem additional_entities_rebased_by_first
    (generate_unique_identifier : string → string) (device : HmDevice)
    (custom_entity_class : EntityClass) (device_enum : EntityDefinition)
    (first : Z) (rest : list Z) (extended : option ExtendedConfig)
    (c : Catalog) :
  let run :=
    make_custom_entity entity_definition generate_unique_identifier device
      custom_entity_class device_enum (first :: rest) extended c in
  ∃ entity_def news,
    _get_device_entities entity_definition device_enum first = Ok entity_def
    ∧ (∀ k, entity_def !! (k + first)
            = additional_of entity_definition device_enum !! CkInt k)
    ∧ (∀ k' v, entity_def !! k' = Some v →
         ∃ k, k' = k + first
              ∧ additional_of entity_definition device_enum !! CkInt k = Some v)
    ∧ instantiated run.2 = instantiated c ++ news
    ∧ Forall (λ e, ce_entity_def e = entity_def) news
    ∧ match run.1 with
      | Ok es => Forall (λ e, ce_entity_def e = entity_def) es
      | Raise _ => True
      end.
Proof.
  intros run.
  destruct (get_device_entities_int_keys entity_definition device_enum first)
    as (entity_def & Hdef & Hkeys).
  { apply shipped_additional_int_keys. }
  destruct (creates_only_make_custom_entity entity_definition
              generate_unique_identifier device custom_entity_class
              device_enum first rest extended entity_def Hdef)
    as [Hi _ Hr].
  destruct (Hi c) as (news & Hnews & Hall).
  exists entity_def, news. split; [done|].
  split. { intros k. rewrite Hkeys. do 2 f_equal. lia. }
  split. { intros k' v Hv. exists (k' - first). split; [lia|]. by rewrite <- Hkeys. }
  split; [done|]. split; [done|]. apply Hr.
Qed.

(** C3, as it is stated, fails. The classic switch has its additional
    entities at channel offset 1. With the base channels (1, 2) the entity
    made for base channel 2 (its group is the group rebased by 2) is given
    the map with the key 2 = 1 + 1, where rebasing by its own base channel
    gives the key 3 = 1 + 2. *)
Lemma additional_entities_not_rebased_per_base_channel :
  let run :=
    make_custom_entity entity_definition (λ address, address)
      two_channel_device binds_state RF_SWITCH [1; 2] None empty_catalog in
  ∃ e,
    e ∈ default [] (match run.1 with Ok es => Some es | Raise _ => None end)
    ∧ _get_device_group entity_definition RF_SWITCH 2 = Ok (ce_device_def e)
    ∧ is_Some (ce_entity_def e !! 2)
    ∧ ce_entity_def e !! 3 = None
    ∧ _get_device_entities entity_definition RF_SWITCH 2
      ≠ Ok (ce_entity_def e).
Proof.
  vm_compute. eexists. split.
  { apply list_elem_of_further, list_elem_of_here. }
  split; [reflexivity|].
  split; [by eexists|].
  split; [reflexivity|].
  discriminate.
Qed.

End FactoryFacts.

(** ** Lights *)

Module LightFacts.
Import ED Generic Light LightProps.

Lemma Qgtb_true (x y : Q) : Qgtb x y = true ↔ (y < x)%Q.
Proof.
  unfold Qgtb. rewrite negb_true_iff, <- not_true_iff_false, Qle_bool_iff.
  split; [apply Qnot_le_lt|apply Qlt_not_le].
Qed.

Lemma Qgtb_false (x y : Q) : Qgtb x y = false ↔ (x <= y)%Q.
Proof.
  unfold Qgtb. by rewrite negb_false_iff, Qle_bool_iff.
Qed.

Lemma Qltb_true (x y : Q) : Qltb x y = true ↔ (x < y)%Q.
Proof. apply Qgtb_true. Qed.

Lemma Qltb_false (x y : Q) : Qltb x y = false ↔ (y <= x)%Q.
Proof. apply Qgtb_false. Qed.

(** *** The duration of the fixed colour light *)

Lemma fixed_on_time_seconds (on_time : Q) :
  (on_time <= 16343)%Q →
  CeIpFixedColorLight_set_on_time_value on_time
  = ([(FIELD_ON_TIME_UNIT, VInt TIME_UNIT_SECONDS);
      (FIELD_ON_TIME_VALUE, VFloat on_time)], Ok ()).
Proof.
  intros Hle. unfold CeIpFixedColorLight_set_on_time_value.
  apply Qgtb_false in Hle. by rewrite !Hle.
Qed.

Lemma fixed_on_time_minutes (on_time : Q) :
  (16343 < on_time)%Q → (on_time / 60 <= 16343)%Q →
  CeIpFixedColorLight_set_on_time_value on_time
  = ([(FIELD_ON_TIME_UNIT, VInt TIME_UNIT_MINUTES);
      (FIELD_ON_TIME_VALUE, VFloat (on_time / 60))], Ok ()).
Proof.
  intros Hgt Hle. unfold CeIpFixedColorLight_set_on_time_value.
  apply Qgtb_true in Hgt. apply Qgtb_false in Hle. by rewrite Hgt, Hle.
Qed.

Lemma fixed_on_time_hours (on_time : Q) :
  (16343 < on_time / 60)%Q →
  CeIpFixedColorLight_set_on_time_value on_time
  = ([(FIELD_ON_TIME_UNIT, VInt TIME_UNIT_HOURS);
      (FIELD_ON_TIME_VALUE, VFloat (on_time / 60 / 60))], Ok ()).
Proof.
  intros Hgt. unfold CeIpFixedColorLight_set_on_time_value.
  assert (Hgt1 : (16343 < on_time)%Q).
  { assert (Heq : (on_time == on_time / 60 * 60)%Q) by (field; done).
    revert Hgt Heq. generalize (on_time / 60)%Q. intros x Hgt Heq. lra. }
  apply Qgtb_true in Hgt, Hgt1. by rewrite Hgt1, Hgt.
Qed.

(** C7. The duration of the fixed colour light in two units: a duration of
    at most 16343 seconds is sent as it is with the unit SECONDS; a longer
    one is divided by 60 with the unit MINUTES, and when the result still
    exceeds 16343 divided by 60 again with the unit HOURS; the unit is
    written before the value; 16343 goes out as (16343, SECONDS), 16344 as
    (272.4, MINUTES), 1000000 with the unit HOURS; the dimmer classes send
    the seconds as they are, one write of the value. *)
Theorem dual_unit_duration (on_time : Q) :
  let sent := CeIpFixedColorLight_set_on_time_value on_time in
  ((on_time <= 16343)%Q →
     sent = ([(FIELD_ON_TIME_UNIT, VInt TIME_UNIT_SECONDS);
              (FIELD_ON_TIME_VALUE, VFloat on_time)], Ok ()))
  ∧ ((16343 < on_time)%Q → (on_time / 60 <= 16343)%Q →
     sent = ([(FIELD_ON_TIME_UNIT, VInt TIME_UNIT_MINUTES);
              (FIELD_ON_TIME_VALUE, VFloat (on_time / 60))], Ok ()))
  ∧ ((16343 < on_time)%Q → (16343 < on_time / 60)%Q →
     sent = ([(FIELD_ON_TIME_UNIT, VInt TIME_UNIT_HOURS);
              (FIELD_ON_TIME_VALUE, VFloat (on_time / 60 / 60))], Ok ()))
  ∧ CeIpFixedColorLight_set_on_time_value 16343
    = ([(FIELD_ON_TIME_UNIT, VInt TIME_UNIT_SECONDS);
        (FIELD_ON_TIME_VALUE, VFloat 16343)], Ok ())
  ∧ (∃ value,
       CeIpFixedColorLight_set_on_time_value 16344
       = ([(FIELD_ON_TIME_UNIT, VInt TIME_UNIT_MINUTES);
           (FIELD_ON_TIME_VALUE, VFloat value)], Ok ())
       ∧ (value == 272.4)%Q)
  ∧ (∃ value,
       CeIpFixedColorLight_set_on_time_value 1000000
       = ([(FIELD_ON_TIME_UNIT, VInt TIME_UNIT_HOURS);
           (FIELD_ON_TIME_VALUE, VFloat value)], Ok ()))
  ∧ set_on_time_value CeDimmer on_time
    = ([(FIELD_ON_TIME_VALUE, VFloat on_time)], Ok ())
  ∧ set_on_time_value CeColorDimmer on_time
    = ([(FIELD_ON_TIME_VALUE, VFloat on_time)], Ok ())
  ∧ set_on_time_value CeColorDimmerEffect on_time
    = ([(FIELD_ON_TIME_VALUE, VFloat on_time)], Ok ())
  ∧ set_on_time_value CeColorTempDimmer on_time
    = ([(FIELD_ON_TIME_VALUE, VFloat on_time)], Ok ()).
Proof.
  intros sent. repeat split.
  - apply fixed_on_time_seconds.
  - apply fixed_on_time_minutes.
  - intros _. apply fixed_on_time_hours.
  - exists (16344 / 60)%Q. split; [reflexivity|]. reflexivity.
  - by eexists.
Qed.

(** C10. A dimmer whose level has no cached value: [is_on] is [False] and
    the brightness is 0. *)
Theorem absent_level_degrades (self : LightEntity) :
  e_level self = None →
  CeDimmer_is_on self = false ∧ CeDimmer_brightness self = 0.
Proof.
  intros Hnone. unfold CeDimmer_is_on, CeDimmer_brightness.
  by rewrite Hnone.
Qed.

Lemma absent_level_degrades_witness :
  CeDimmer_is_on (mkLightEntity None None None None None None) = false
  ∧ CeDimmer_brightness (mkLightEntity None None None None None None) = 0.
Proof.
  apply (absent_level_degrades (mkLightEntity None None None None None None)).
  reflexivity.
Defined.

(** *** The colour code of the colour dimmer *)

Lemma percent_below_tenth (ksaturation : Q) :
  (ksaturation / 100 < 1 # 10)%Q ↔ (ksaturation < 10)%Q.
Proof.
  assert (Heq : (ksaturation == ksaturation / 100 * 100)%Q) by (field; done).
  revert Heq. generalize (ksaturation / 100)%Q. intros x Heq.
  split; intros H; lra.
Qed.

Lemma color_of_hs_white (khue ksaturation : Q) :
  (ksaturation < 10)%Q → color_of_hs khue ksaturation = 200.
Proof.
  intros Hlt. unfold color_of_hs.
  apply percent_below_tenth, Qltb_true in Hlt. by rewrite Hlt.
Qed.

Lemma color_of_hs_hue (khue ksaturation : Q) :
  (10 <= ksaturation)%Q →
  color_of_hs khue ksaturation
  = py_round (Qmax (Qmin (khue / 360) 1) 0 * 199).
Proof.
  intros Hge. unfold color_of_hs.
  assert (Hfalse : Qltb (ksaturation / 100) (1 # 10) = false).
  { apply Qltb_false. apply Qnot_lt_le. rewrite percent_below_tenth. lra. }
  by rewrite Hfalse.
Qed.

Lemma hs_color_white (self : LightEntity) (c : Z) :
  200 <= c → CeColorDimmer_hs_color (with_color self c) = (0, 0)%Q.
Proof.
  intros Hc. unfold CeColorDimmer_hs_color. simpl.
  by rewrite (proj2 (Z.leb_le 200 c) Hc).
Qed.

Lemma hs_color_hue (self : LightEntity) (c : Z) :
  c < 200 →
  CeColorDimmer_hs_color (with_color self c)
  = (inject_Z c / 200 * 360, 100)%Q.
Proof.
  intros Hc. unfold CeColorDimmer_hs_color. simpl.
  by rewrite (proj2 (Z.leb_gt 200 c) Hc).
Qed.

(** C6. The colour code of the colour dimmer. Reading: a code of 200 or
    more is (0, 0), a smaller code [c] is (c / 200 * 360, 100). Writing:
    a saturation below 10 (percent) gives the code 200, any other the code
    round(clamp(hue / 360, 0, 1) * 199), and that code is the first write
    of [turn_on], to the colour field. Hence (hue 0, saturation 100) is
    written as code 0 and read back with saturation 100 and hue 0, and any
    saturation below 10 is read back as (0, 0) whatever the hue. *)
Theorem color_dimmer_mapping (self : LightEntity) (c : Z)
    (khue ksaturation : Q) :
  (200 <= c → CeColorDimmer_hs_color (with_color self c) = (0, 0)%Q)
  ∧ (c < 200 →
       CeColorDimmer_hs_color (with_color self c)
       = (inject_Z c / 200 * 360, 100)%Q)
  ∧ ((ksaturation < 10)%Q → color_of_hs khue ksaturation = 200)
  ∧ ((10 <= ksaturation)%Q →
       color_of_hs khue ksaturation
       = py_round (Qmax (Qmin (khue / 360) 1) 0 * 199))
  ∧ (∀ kwargs, kw_hs_color kwargs = Some (khue, ksaturation) →
       (turn_on CeColorDimmer self kwargs).1
       = (FIELD_COLOR, VInt (color_of_hs khue ksaturation))
         :: (BaseHmLight_turn_on CeColorDimmer self kwargs).1)
  ∧ color_of_hs 0 100 = 0
  ∧ (CeColorDimmer_hs_color (with_color self (color_of_hs 0 100))).2 = 100%Q
  ∧ ((CeColorDimmer_hs_color (with_color self (color_of_hs 0 100))).1 == 0)%Q
  ∧ ((ksaturation < 10)%Q →
       CeColorDimmer_hs_color (with_color self (color_of_hs khue ksaturation))
       = (0, 0)%Q).
Proof.
  split; [apply hs_color_white|].
  split; [apply hs_color_hue|].
  split; [apply color_of_hs_white|].
  split; [apply color_of_hs_hue|].
  split.
  { intros kwargs Hhs. unfold turn_on, CeColorDimmer_turn_on. rewrite Hhs.
    unfold cbind, send_value. simpl.
    by destruct (BaseHmLight_turn_on CeColorDimmer self kwargs). }
  split; [reflexivity|].
  split; [reflexivity|].
  split; [reflexivity|].
  intros Hlt. rewrite (color_of_hs_white _ _ Hlt).
  by apply hs_color_white.
Qed.

(** *** The order of the writes of [turn_on] *)

Lemma target_brightness_nonzero cls self kwargs :
  (target_brightness cls self kwargs =? 0) = false.
Proof.
  unfold target_brightness.
  destruct (default (brightness cls self) (kw_brightness kwargs) =? 0) eqn:H;
    [done|exact H].
Qed.

Lemma kwargs_falsy_no_brightness kwargs :
  kwargs_truthy kwargs = false → kw_brightness kwargs = None.
Proof.
  unfold kwargs_truthy. destruct (kw_brightness kwargs); [|done].
  simpl. by rewrite !orb_true_r.
Qed.

Ltac split_conditions :=
  repeat match goal with
         | |- context [Qgtb ?x ?y] => destruct (Qgtb x y)
         end.

Lemma base_turn_on_writes cls self kwargs :
  let run := BaseHmLight_turn_on cls self kwargs in
  run.2 = Ok ()
  ∧ in_order code_phase run.1 = true
  ∧ forallb (λ w : Write, is_known_field w.1) run.1 = true
  ∧ writes_to is_ramp_field run.1
    = bool_decide (is_Some (kw_ramp_time kwargs))
  ∧ writes_to is_on_time_field run.1
    = bool_decide (is_Some (kw_on_time kwargs))
  ∧ writes_to is_level_field run.1
    = negb (target_brightness cls self kwargs =? brightness cls self)
      || kwargs_truthy kwargs.
Proof.
  unfold BaseHmLight_turn_on.
  rewrite target_brightness_nonzero. simpl negb. rewrite andb_true_l.
  generalize (target_brightness cls self kwargs) (brightness cls self).
  generalize (kwargs_truthy kwargs). intros truthy target current.
  destruct (target =? current), truthy; simpl negb; simpl orb;
    destruct (kw_ramp_time kwargs) as [ramp_time|],
             (kw_on_time kwargs) as [on_time|];
    destruct cls;
    unfold set_ramp_time_value, set_on_time_value,
      CeIpFixedColorLight_set_ramp_time_value,
      CeIpFixedColorLight_set_on_time_value;
    split_conditions;
    by repeat split.
Qed.

Lemma extra_not_ramp field :
  is_extra_field field = true → is_ramp_field field = false.
Proof.
  unfold is_extra_field. rewrite !orb_true_iff, !String.eqb_eq.
  by intros [[->| ->]| ->].
Qed.

Lemma extra_not_on_time field :
  is_extra_field field = true → is_on_time_field field = false.
Proof.
  unfold is_extra_field. rewrite !orb_true_iff, !String.eqb_eq.
  by intros [[->| ->]| ->].
Qed.

Lemma extra_not_level field :
  is_extra_field field = true → is_level_field field = false.
Proof.
  unfold is_extra_field. rewrite !orb_true_iff, !String.eqb_eq.
  by intros [[->| ->]| ->].
Qed.

Lemma writes_to_after_extras (sort : string → bool) (ews ws : list Write) :
  (∀ field, is_extra_field field = true → sort field = false) →
  forallb (λ w : Write, is_extra_field w.1) ews = true →
  writes_to sort (ews ++ ws) = writes_to sort ws.
Proof.
  intros Hsort Hews. unfold writes_to. rewrite existsb_app.
  induction ews as [|w ews IH]; [done|].
  simpl in *. apply andb_true_iff in Hews as [Hw Hews].
  rewrite (Hsort _ Hw). simpl. by apply IH.
Qed.

Lemma in_order_after_extras (ews ws : list Write) :
  forallb (λ w : Write, is_extra_field w.1) ews = true →
  in_order code_phase ws = true →
  in_order code_phase (ews ++ ws) = true.
Proof.
  intros Hews Hws. unfold in_order in *.
  induction ews as [|w ews IH]; [done|].
  cbn [forallb] in Hews. apply andb_true_iff in Hews as [Hw Hews].
  change ((w :: ews) ++ ws) with (w :: (ews ++ ws)).
  rewrite fmap_cons. cbn [nondecreasing].
  rewrite (IH Hews), andb_true_r.
  unfold code_phase at 1. rewrite Hw.
  apply forallb_forall. by intros q _.
Qed.

(** Writes to colour, temperature or effect fields, then the base
    routine: the run is ordered. *)
Lemma extras_then_base (extras : Cmd ()) cls self kwargs :
  forallb (λ w : Write, is_extra_field w.1) extras.1 = true →
  ordered_run cls self kwargs
    (extras ;; BaseHmLight_turn_on cls self kwargs).
Proof.
  intros Hextras.
  destruct (base_turn_on_writes cls self kwargs)
    as (Hok & Horder & Hknown & Hramp & Hon & Hlevel).
  assert (Hews : forallb (λ w : Write, is_known_field w.1) extras.1 = true).
  { apply forallb_forall. intros w Hw.
    eapply forallb_forall in Hextras; [|exact Hw].
    unfold is_known_field. by rewrite Hextras. }
  destruct extras as [ews [[]|e]]; simpl in *.
  - split; simpl; intros.
    + rewrite forallb_app. by rewrite Hews, Hknown.
    + by apply in_order_after_extras.
    + rewrite writes_to_after_extras; [done|apply extra_not_ramp|done].
    + rewrite writes_to_after_extras; [done|apply extra_not_on_time|done].
    + rewrite writes_to_after_extras; [done|apply extra_not_level|done].
  - split; simpl; try done.
    rewrite <- (app_nil_r ews). by apply in_order_after_extras.
Qed.

Lemma cbind_assoc {A B C} (c : Cmd A) (k : A → Cmd B) (h : B → Cmd C) :
  cbind (cbind c k) h = cbind c (λ a, cbind (k a) h).
Proof.
  destruct c as [ws [a|e]]; simpl; [|done].
  destruct (k a) as [ws' [b|e]]; simpl; [|done].
  by rewrite app_assoc.
Qed.

Lemma cbind_cret_l {B} (k : () → Cmd B) : cbind (cret ()) k = k ().
Proof. unfold cbind, cret. simpl. by destruct (k ()). Qed.

(** Every class of light: its own writes go to colour, temperature or
    effect fields and come before the base routine. *)
Lemma turn_on_extras_then_base cls self kwargs :
  ∃ extras : Cmd (),
    turn_on cls self kwargs
    = (extras ;; BaseHmLight_turn_on cls self kwargs)
    ∧ forallb (λ w : Write, is_extra_field w.1) extras.1 = true.
Proof.
  destruct cls; simpl.
  - exists (cret ()). by rewrite cbind_cret_l.
  - eexists. split; [reflexivity|]. by destruct (kw_hs_color kwargs) as [[]|].
  - unfold CeColorDimmerEffect_turn_on, CeColorDimmer_turn_on.
    rewrite <- !cbind_assoc. eexists. split; [reflexivity|].
    generalize (CeColorDimmerEffect_effect self).
    destruct (kw_effect kwargs) as [effect|].
    + generalize (py_list_index _effect_list effect).
      intros [idx|e] [current|e'];
        destruct (kw_hs_color kwargs) as [[]|]; simpl;
        repeat case_bool_decide; done.
    + intros [current|e'];
        destruct (kw_hs_color kwargs) as [[]|]; simpl;
        repeat case_bool_decide; done.
  - eexists. split; [reflexivity|]. by destruct (kw_color_temp kwargs).
  - eexists. split; [reflexivity|].
    destruct (kw_hs_color kwargs) as [hs|]; [|done].
    unfold HmSelect_send_value.
    generalize (_convert_color (Some hs)). intros name.
    destruct (e_color_value_list self) as [[|v vs]|]; try done.
    generalize (py_list_index (v :: vs) name).
    intros [idx|e]; case_bool_decide; done.
Qed.

(** C5, as the code has it. For every class of light, [turn_on] writes to
    colour, temperature, effect, ramp time, on time and level fields only;
    it first makes the writes of the class (colour, colour temperature,
    effect), then the ramp time write if [ramp_time] was passed, then the
    on time write if [on_time] was passed, then the level write, last; and
    the level write is left out only if no brightness was passed and the
    target brightness is the current one (exactly: when no keyword at all
    was passed and the target brightness is the current one). *)
Theorem turn_on_order (cls : LightClass) (self : LightEntity)
    (kwargs : Kwargs) :
  let run := turn_on cls self kwargs in
  forallb (λ w : Write, is_known_field w.1) run.1 = true
  ∧ in_order code_phase run.1 = true
  ∧ (run.2 = Ok () →
       writes_to is_ramp_field run.1
       = bool_decide (is_Some (kw_ramp_time kwargs))
       ∧ writes_to is_on_time_field run.1
         = bool_decide (is_Some (kw_on_time kwargs))
       ∧ (writes_to is_level_field run.1 = false →
            kw_brightness kwargs = None
            ∧ target_brightness cls self kwargs = brightness cls self)
       ∧ (writes_to is_level_field run.1 = false
          ↔ kwargs_truthy kwargs = false
            ∧ target_brightness cls self kwargs = brightness cls self)).
Proof.
  intros run. subst run.
  destruct (turn_on_extras_then_base cls self kwargs) as (extras & -> & Hex).
  destruct (extras_then_base extras cls self kwargs Hex)
    as [Hknown Horder Hramp Hon Hlevel].
  split; [done|]. split; [done|]. intros Hok.
  split; [by apply Hramp|]. split; [by apply Hon|].
  rewrite (Hlevel Hok), orb_false_iff, negb_false_iff, Z.eqb_eq.
  split; [|tauto].
  intros [Heq Hfalsy]. split; [by apply kwargs_falsy_no_brightness|done].
Qed.

(** C5, as it is stated, fails: the colour dimmer turned on with a colour
    and a ramp time writes the colour first, then the ramp time, then the
    level; the order ramp time, on time, colour, level does not hold. *)
Lemma color_written_before_ramp_time :
  let run :=
    turn_on CeColorDimmer
      (mkLightEntity (Some 0%Q) None None None None None)
      (mkKwargs (Some 1%Q) None None (Some (0, 100)%Q) None None []) in
  run = ([(FIELD_COLOR, VInt 0);
          (FIELD_RAMP_TIME_VALUE, VFloat 1);
          (FIELD_LEVEL, VFloat (255 # 255))], Ok ())
  ∧ in_order spec_phase run.1 = false
  ∧ in_order code_phase run.1 = true.
Proof. vm_compute. done. Qed.

End LightFacts.

(** ** The classic lock *)

Module LockFacts.
Import ED Generic Lock.

Lemma py_ne_str_true (value : PyVal) (s : string) :
  py_ne_str value s = true ↔ value ≠ VStr s.
Proof.
  destruct value as [|b|z|q|s']; simpl; try (split; done).
  rewrite negb_true_iff, String.eqb_neq. split; [congruence|].
  intros Hne ->. done.
Qed.

Lemma is_not_None_true (value : PyVal) :
  is_not_None value = true ↔ value ≠ VNone.
Proof. by destruct value. Qed.

(** C8. The classic lock: [is_locked] is true exactly when the value of
    the state is not [True] (so a state [True] reads unlocked and a state
    [False] reads locked); [is_jammed] is true exactly when the error
    field holds a value and that value is not "NO_ERROR"; [lock] writes
    [False] to the state, [unlock] writes [True] to the state, [open]
    writes [True] to the open field. *)
Theorem classic_lock_semantics (self : CeRfLock) :
  (is_locked self = true ↔ HmSwitch_value (e_state self) ≠ Some true)
  ∧ (HmSwitch_value (e_state self) = Some true → is_locked self = false)
  ∧ (HmSwitch_value (e_state self) = Some false → is_locked self = true)
  ∧ (is_jammed self = true
     ↔ e_error self ≠ VNone ∧ e_error self ≠ VStr "NO_ERROR")
  ∧ lock = ([(FIELD_STATE, VBool false)], Ok ())
  ∧ unlock = ([(FIELD_STATE, VBool true)], Ok ())
  ∧ open = ([(FIELD_OPEN, VBool true)], Ok ()).
Proof.
  split.
  { unfold is_locked. by destruct (HmSwitch_value (e_state self)) as [[]|]. }
  split. { unfold is_locked. by intros ->. }
  split. { unfold is_locked. by intros ->. }
  split.
  { unfold is_jammed.
    by rewrite andb_true_iff, is_not_None_true, py_ne_str_true. }
  done.
Qed.

End LockFacts.

(** ** More on the definition table and its rebasing *)

Module EDMore.
Import ED Config.

(** The rebasing loop keeps the number of entries: no two channels of the
    original land on one key. *)
Lemma rebase_fold_size {A} (b : Z) (m : gmap Z A) :
  size (map_fold
          (λ channel_no field new_fields,
             <[channel_no + b := field]> new_fields)
          (∅ : gmap Z A) m)
  = size m.
Proof.
  apply (map_fold_weak_ind
    (λ (r m : gmap Z A), size r = size m ∧ ∀ k, r !! k = m !! (k - b))).
  - split; [done|]. intros k. by rewrite !lookup_empty.
  - intros i x m' r Hfresh [Hsize Hlook]. split.
    + rewrite !map_size_insert_None; [by rewrite Hsize|done|].
      rewrite Hlook. by replace (i + b - b) with i by lia.
    + intros k. destruct (decide (k = i + b)) as [->|Hne].
      * replace (i + b - b) with i by lia. by rewrite !lookup_insert_eq.
      * rewrite !lookup_insert_ne by lia. apply Hlook.
Qed.

(** X1: [_rebase_entity_dict] on any group and any key of it: the result
    has as many channels as the original (shifting never merges two
    channels), a channel [k] of the result is the channel [k - b] of the
    original, and nothing is found below the shifted keys. *)
Theorem rebase_entity_dict_bijective
    (entity_dict : DeviceGroup → option (gmap Z (gmap string string)))
    (group : DeviceGroup) (b : Z) :
  size (_rebase_entity_dict entity_dict group b)
  = size (default ∅ (entity_dict group))
  ∧ (∀ k, _rebase_entity_dict entity_dict group b !! k
          = default ∅ (entity_dict group) !! (k - b))
  ∧ (∀ k1 k2 v1 v2,
       default ∅ (entity_dict group) !! k1 = Some v1 →
       default ∅ (entity_dict group) !! k2 = Some v2 →
       k1 ≠ k2 →
       _rebase_entity_dict entity_dict group b !! (k1 + b) = Some v1
       ∧ _rebase_entity_dict entity_dict group b !! (k2 + b) = Some v2
       ∧ k1 + b ≠ k2 + b).
Proof.
  split; [|split].
  - unfold _rebase_entity_dict.
    destruct (entity_dict group) as [flds|]; simpl; [|done].
    destruct (decide (flds = ∅)) as [->|_]; [done|].
    apply rebase_fold_size.
  - intros k. apply EDFacts.rebase_entity_dict_lookup.
  - intros k1 k2 v1 v2 H1 H2 Hne.
    rewrite !EDFacts.rebase_entity_dict_lookup.
    replace (k1 + b - b) with k1 by lia.
    replace (k2 + b - b) with k2 by lia.
    repeat split; [done|done|lia].
Qed.

Section AnyTable.

Variable defs : EntityDefinitions.

(** X2: what [_get_device_group] leaves alone. For any table and any kind
    whose group has a primary channel, the repeatable and the visible
    repeatable fields of the result are those of the table, for every base
    channel, and the secondary channels keep their number and order. *)
Theorem repeatable_fields_not_rebased device_enum device orig p b :
  _get_device defs device_enum = Some device →
  device_group device = Some orig →
  primary_channel orig = Some p →
  ∃ rebased,
    _get_device_group defs device_enum b = Ok rebased
    ∧ repeatable_fields rebased = repeatable_fields orig
    ∧ visible_repeatable_fields rebased = visible_repeatable_fields orig
    ∧ length (default [] (secondary_channels rebased))
      = length (default [] (secondary_channels orig))
    ∧ ∀ i x, default [] (secondary_channels orig) !! i = Some x →
             default [] (secondary_channels rebased) !! i = Some (x + b).
Proof.
  intros Hdev Hgrp Hprim.
  destruct (EDFacts.get_device_group_rebased defs _ _ _ _ b Hdev Hgrp Hprim)
    as (rebased & Hget & [_ _ Hsec _ _ Hrep Hvis]).
  exists rebased. split; [done|]. split; [done|]. split; [done|].
  rewrite Hsec. destruct (secondary_channels orig) as [l|]; simpl.
  - split; [by rewrite length_fmap|].
    intros i x Hi. by rewrite list_lookup_fmap, Hi.
  - split; [done|]. intros i x Hi. by rewrite lookup_nil in Hi.
Qed.

(** X3: the shape of the result. With a base channel other than 0 the
    returned group always has the keys [fields] and [visible_fields], with
    the empty dict where the table has none; with base channel 0 the group
    comes back as the table has it, the keys absent where the table has
    none. *)
Theorem nonzero_base_adds_field_keys device_enum device orig p b :
  _get_device defs device_enum = Some device →
  device_group device = Some orig →
  primary_channel orig = Some p →
  b ≠ 0 →
  _get_device_group defs device_enum 0 = Ok orig
  ∧ ∃ rebased,
      _get_device_group defs device_enum b = Ok rebased
      ∧ is_Some (fields rebased)
      ∧ is_Some (visible_fields rebased)
      ∧ (fields orig = None → fields rebased = Some ∅)
      ∧ (visible_fields orig = None → visible_fields rebased = Some ∅).
Proof.
  intros Hdev Hgrp Hprim Hb.
  assert (Htrue : group_truthy orig = true).
  { unfold group_truthy. by rewrite Hprim. }
  split.
  { unfold _get_device_group. by rewrite Hdev, Hgrp, Htrue. }
  unfold _get_device_group. rewrite Hdev, Hgrp, Htrue. simpl.
  rewrite (proj2 (Z.eqb_neq b 0) Hb), Hprim. simpl.
  eexists. split; [done|]. simpl.
  split; [by eexists|]. split; [by eexists|].
  unfold _rebase_entity_dict.
  destruct (secondary_channels orig) as [[|x l]|]; simpl;
    (split; intros ->; done).
Qed.

(** X4: a group that lacks the primary channel. At base channel 0 the
    group is handed out unchecked; at any other base channel the lookup of
    the primary channel raises [KeyError]. *)
Theorem missing_primary_channel device_enum device group b :
  _get_device defs device_enum = Some device →
  device_group device = Some group →
  group_truthy group = true →
  primary_channel group = None →
  b ≠ 0 →
  _get_device_group defs device_enum 0 = Ok group
  ∧ _get_device_group defs device_enum b
    = Raise (KeyError ED_PRIMARY_CHANNEL).
Proof.
  intros Hdev Hgrp Htrue Hprim Hb.
  unfold _get_device_group. rewrite Hdev, Hgrp, Htrue. simpl.
  by rewrite (proj2 (Z.eqb_neq b 0) Hb), Hprim.
Qed.

End AnyTable.

Lemma repeatable_fields_not_rebased_witness :
  ∃ rebased,
    _get_device_group entity_definition IP_DIMMER 3 = Ok rebased
    ∧ repeatable_fields rebased = Some dimmer_fields
    ∧ visible_repeatable_fields rebased = None
    ∧ length (default [] (secondary_channels rebased)) = 2%nat
    ∧ ∀ i x, [2; 3] !! i = Some x →
             default [] (secondary_channels rebased) !! i = Some (x + 3).
Proof.
  apply (repeatable_fields_not_rebased entity_definition IP_DIMMER
           (only_group
              (mkDeviceGroup (Some 1) (Some [2; 3]) (Some dimmer_fields)
                 None None
                 (Some {[ 0 := {[ FIELD_CHANNEL_LEVEL := "LEVEL" ]} ]})))
           (mkDeviceGroup (Some 1) (Some [2; 3]) (Some dimmer_fields)
              None None
              (Some {[ 0 := {[ FIELD_CHANNEL_LEVEL := "LEVEL" ]} ]}))
           1 3); reflexivity.
Defined.

Lemma nonzero_base_adds_field_keys_witness :
  _get_device_group entity_definition RF_DIMMER 0
  = Ok (mkDeviceGroup (Some 0) None (Some dimmer_fields) None None None)
  ∧ ∃ rebased,
      _get_device_group entity_definition RF_DIMMER 1 = Ok rebased
      ∧ is_Some (fields rebased)
      ∧ is_Some (visible_fields rebased)
      ∧ (@None (gmap Z (gmap string string)) = None →
         fields rebased = Some ∅)
      ∧ (@None (gmap Z (gmap string string)) = None →
         visible_fields rebased = Some ∅).
Proof.
  apply (nonzero_base_adds_field_keys entity_definition RF_DIMMER
           (only_group
              (mkDeviceGroup (Some 0) None (Some dimmer_fields)
                 None None None))
           (mkDeviceGroup (Some 0) None (Some dimmer_fields) None None None)
           0 1); [reflexivity|reflexivity|reflexivity|lia].
Defined.

Lemma missing_primary_channel_witness :
  _get_device_group no_primary_table RF_SWITCH 0
  = Ok (mkDeviceGroup None None (Some {[ FIELD_STATE := "STATE" ]})
          None None None)
  ∧ _get_device_group no_primary_table RF_SWITCH 7
    = Raise (KeyError ED_PRIMARY_CHANNEL).
Proof.
  apply (missing_primary_channel no_primary_table RF_SWITCH
           (only_group
              (mkDeviceGroup None None (Some {[ FIELD_STATE := "STATE" ]})
                 None None None))
           (mkDeviceGroup None None (Some {[ FIELD_STATE := "STATE" ]})
              None None None)
           7); [reflexivity|reflexivity|reflexivity|reflexivity|lia].
Defined.

End EDMore.

(** ** More on the entity factory *)

Module FactoryMore.
Import ED Config.

Lemma additional_fold_int_keys_size {V} (b : Z) (m : gmap ChannelKey V) :
  (∀ k, is_Some (m !! k) → ∃ z, k = CkInt z) →
  ∃ n : gmap Z V,
    map_fold
      (λ channel_no field acc,
         result_bind acc (λ new_entities,
         result_bind (key_add channel_no b) (λ k,
         Ok (<[k := field]> new_entities))))
      (Ok ∅) m = Ok n
    ∧ size n = size m
    ∧ ∀ k, n !! k = m !! CkInt (k - b).
Proof.
  apply (map_fold_weak_ind
    (λ (r : result (gmap Z V)) (m : gmap ChannelKey V),
       (∀ k, is_Some (m !! k) → ∃ z, k = CkInt z) →
       ∃ n, r = Ok n ∧ size n = size m ∧ ∀ k, n !! k = m !! CkInt (k - b))).
  - intros _. exists ∅. split; [done|]. split; [done|].
    intros k. by rewrite !lookup_empty.
  - intros i x m' r Hfresh IH Hint.
    destruct (Hint i) as [z ->]; [by rewrite lookup_insert_eq|].
    destruct IH as (n & -> & Hsize & Hn).
    { intros k Hk. apply Hint. rewrite lookup_insert_ne; [done|].
      intros <-. rewrite Hfresh in Hk. by destruct Hk. }
    simpl. eexists. split; [done|]. split.
    + rewrite !map_size_insert_None; [by rewrite Hsize|done|].
      rewrite Hn. by replace (z + b - b) with z by lia.
    + intros k. destruct (decide (k = z + b)) as [->|Hne].
      * replace (z + b - b) with z by lia. by rewrite !lookup_insert_eq.
      * rewrite !lookup_insert_ne; [apply Hn|intros [= ?]; lia|lia].
Qed.

Lemma additional_of_unfold defs device_enum :
  match device_definitions defs device_enum with
  | Some device => default ∅ (additional_entities device)
  | None => ∅
  end = additional_of defs device_enum.
Proof.
  unfold additional_of. by destruct (device_definitions defs device_enum).
Qed.

(** X5: [_get_device_entities] on any table. When every key of the
    additional entities of the kind is a single channel number, the call
    returns for every base channel, the result has as many entries as the
    table, and the entry of channel [z] is found at [z + b] with the same
    parameter names. *)
Theorem additional_entities_shifted (defs : EntityDefinitions)
    (device_enum : EntityDefinition) (b : Z) :
  (∀ k, is_Some (additional_of defs device_enum !! k) → ∃ z, k = CkInt z) →
  ∃ entity_def,
    _get_device_entities defs device_enum b = Ok entity_def
    ∧ size entity_def = size (additional_of defs device_enum)
    ∧ ∀ z, entity_def !! (z + b) = additional_of defs device_enum !! CkInt z.
Proof.
  intros Hint. unfold _get_device_entities. rewrite additional_of_unfold.
  case_decide as Hempty.
  - exists ∅. rewrite Hempty. split; [done|]. split; [done|].
    intros z. by rewrite !lookup_empty.
  - destruct (additional_fold_int_keys_size b _ Hint) as (n & Hn & Hsize & Hk).
    exists n. split; [done|]. split; [done|].
    intros z. rewrite Hk. do 2 f_equal. lia.
Qed.

Lemma additional_entities_shifted_witness :
  ∃ entity_def,
    _get_device_entities entity_definition IP_SWITCH 3 = Ok entity_def
    ∧ size entity_def = size (additional_of entity_definition IP_SWITCH)
    ∧ ∀ z, entity_def !! (z + 3)
           = additional_of entity_definition IP_SWITCH !! CkInt z.
Proof.
  apply (additional_entities_shifted entity_definition IP_SWITCH 3).
  apply FactoryFacts.shipped_additional_int_keys.
Defined.

(** X6: a tuple key among the additional entities of a kind. The rebasing
    adds the base channel to the key itself, so [_get_device_entities]
    raises [TypeError] for every base channel, and the factory raises it
    before it looks at any channel: the catalog is left as it was. *)
Theorem tuple_key_raises (defs : EntityDefinitions)
    (generate_unique_identifier : string → string) (device : HmDevice)
    (custom_entity_class : EntityClass) (device_enum : EntityDefinition)
    (first : Z) (rest : list Z) (extended : option ExtendedConfig)
    (c : Catalog) (channel_nos : list Z) :
  is_Some (additional_of defs device_enum !! CkTuple channel_nos) →
  _get_device_entities defs device_enum first = Raise TypeError
  ∧ make_custom_entity defs generate_unique_identifier device
      custom_entity_class device_enum (first :: rest) extended c
    = (Raise TypeError, c).
Proof.
  intros Htuple.
  assert (Hraise : _get_device_entities defs device_enum first = Raise TypeError).
  { by eapply FactoryFacts.get_device_entities_tuple_key. }
  split; [done|].
  unfold make_custom_entity. by rewrite Hraise.
Qed.

Lemma tuple_key_raises_witness :
  _get_device_entities tuple_key_table RF_SWITCH 1 = Raise TypeError
  ∧ make_custom_entity tuple_key_table (λ address, address)
      two_channel_device binds_state RF_SWITCH [1; 2] None empty_catalog
    = (Raise TypeError, empty_catalog).
Proof.
  apply (tuple_key_raises tuple_key_table (λ address, address)
           two_channel_device binds_state RF_SWITCH 1 [2] None empty_catalog
           [1; 2]).
  by eexists.
Defined.

(** *** Computations that return *)

Lemma returns_lift_bind {X A} (r : result X) (k : X → Factory A) x :
  r = Ok x → returns (k x) → returns (fbind (lift r) k).
Proof. intros -> Hk c. apply Hk. Qed.

Lemma returns_for_each {A B} (xs : list A) (body : A → Factory (list B)) :
  (∀ x, x ∈ xs → returns (body x)) → returns (for_each xs body).
Proof.
  induction xs as [|x xs IH]; intros Hbody c.
  - by eexists.
  - rewrite FactoryFacts.for_each_cons.
    destruct (Hbody x (list_elem_of_here _ _) c) as [es Hes].
    destruct (body x c) as [r c1]. simpl in Hes. subst r.
    destruct (IH (λ y Hy, Hbody y (list_elem_of_further _ _ _ Hy)) c1)
      as [more Hmore].
    destruct (for_each xs body c1) as [r c2]. simpl in Hmore. subst r.
    by eexists.
Qed.

Lemma returns_create_entities gen device custom_entity_class device_enum
    device_def entity_def channel_no extended :
  returns (_create_entities gen device custom_entity_class device_enum
             device_def entity_def channel_no extended).
Proof.
  intros c. unfold _create_entities. repeat case_match; by eexists.
Qed.

(** X7: when the factory raises, on the shipped table. With no base
    channel it raises [IndexError]; with a base channel and the one kind
    the table does not define it raises [KeyError]; in both cases the
    catalog is left as it was. In every other case it returns. *)
Theorem factory_raises_exactly
    (generate_unique_identifier : string → string) (device : HmDevice)
    (custom_entity_class : EntityClass) (device_enum : EntityDefinition)
    (group_base_channels : list Z) (extended : option ExtendedConfig)
    (c : Catalog) :
  let run :=
    make_custom_entity entity_definition generate_unique_identifier device
      custom_entity_class device_enum group_base_channels extended c in
  (group_base_channels = [] → run = (Raise IndexError, c))
  ∧ (group_base_channels ≠ [] → device_enum = RF_SIREN →
       run = (Raise (KeyError ED_PRIMARY_CHANNEL), c))
  ∧ (group_base_channels ≠ [] → device_enum ≠ RF_SIREN →
       ∃ es, run.1 = Ok es).
Proof.
  intros run. subst run. split; [by intros ->|]. split.
  - intros Hne ->. by destruct group_base_channels.
  - intros Hne Hkind.
    destruct group_base_channels as [|first rest]; [done|].
    destruct (FactoryFacts.get_device_entities_int_keys entity_definition
                device_enum first) as (entity_def & Hdef & _).
    { apply FactoryFacts.shipped_additional_int_keys. }
    assert (Hdev : ∃ device', _get_device entity_definition device_enum
                              = Some device').
    { destruct (_get_device entity_definition device_enum) eqn:Hd;
        [by eexists|].
      by apply EDFacts.shipped_undefined_kind in Hd. }
    destruct Hdev as [device' Hdev].
    destruct (EDFacts.shipped_group_has_primary _ _ Hdev)
      as (orig & p & Hgrp & Hprim).
    apply (returns_lift_bind _ _ entity_def Hdef).
    apply returns_for_each. intros base_channel _.
    destruct (EDFacts.get_device_group_rebased entity_definition _ _ _ _
                base_channel Hdev Hgrp Hprim)
      as (rebased & Hget & [_ Hp _ _ _ _ _]).
    rewrite Hprim in Hp. simpl in Hp.
    apply (returns_lift_bind _ _ rebased Hget). rewrite Hp.
    apply (returns_lift_bind _ _ (p + base_channel) eq_refl).
    apply returns_for_each. intros channel_no _.
    apply returns_create_entities.
Qed.

(** *** What is registered is what is returned *)

Lemma registers_returned_lift_bind {X} P (r : result X)
    (k : X → Factory (list CustomEntity)) :
  (∀ x, r = Ok x → registers_returned P (k x)) →
  registers_returned P (fbind (lift r) k).
Proof.
  intros Hk c. destruct r as [x|e].
  - apply (Hk x eq_refl).
  - exists []. unfold fbind, lift. simpl.
    rewrite app_nil_r. by repeat split.
Qed.

Lemma registers_returned_for_each {A} P (xs : list A)
    (body : A → Factory (list CustomEntity)) :
  (∀ x, x ∈ xs → registers_returned P (body x)) →
  registers_returned P (for_each xs body).
Proof.
  induction xs as [|x xs IH]; intros Hbody c.
  - exists []. simpl. rewrite app_nil_r. repeat split; try done.
    by intros es [= <-].
  - rewrite FactoryFacts.for_each_cons.
    destruct (Hbody x (list_elem_of_here _ _) c)
      as (n1 & Hreg1 & HP1 & Hfresh1 & Hret1).
    destruct (body x c) as [[es|e] c1]; simpl in *.
    + destruct (IH (λ y Hy, Hbody y (list_elem_of_further _ _ _ Hy)) c1)
        as (n2 & Hreg2 & HP2 & Hfresh2 & Hret2).
      assert (Hfresh : Forall
        (λ e, unique_identifier e ∉ unique_identifier <$> registered c)
        (n1 ++ n2)).
      { apply Forall_app. split; [done|].
        eapply Forall_impl; [exact Hfresh2|]. simpl. intros e He Hin.
        apply He. rewrite Hreg1, fmap_app, elem_of_app. by left. }
      destruct (for_each xs body c1) as [[more|e] c2]; simpl in *;
        exists (n1 ++ n2);
        (split; [by rewrite Hreg2, Hreg1, app_assoc|]);
        (split; [by apply Forall_app|]); (split; [done|]).
      * intros ? [= <-]. by rewrite (Hret1 _ eq_refl), (Hret2 _ eq_refl).
      * done.
    + exists n1. by repeat split.
Qed.

Lemma registers_returned_create_entities gen device custom_entity_class
    device_enum device_def entity_def channel_no extended :
  registers_returned
    (λ e, e = instantiate custom_entity_class device
                (gen (channel_address device channel_no)) device_enum
                device_def entity_def channel_no extended
          ∧ data_entities e ≠ []
          ∧ channel_address device channel_no ∈ channels device)
    (_create_entities gen device custom_entity_class device_enum device_def
       entity_def channel_no extended).
Proof.
  intros c. unfold _create_entities.
  destruct (has_entity c _) eqn:Hhas.
  { exists []. simpl. rewrite app_nil_r. repeat split; try done.
    by intros es [= <-]. }
  case_bool_decide as Hchan.
  { exists []. simpl. rewrite app_nil_r. repeat split; try done.
    by intros es [= <-]. }
  case_bool_decide as Hbound.
  - eexists [_]. simpl. split; [done|]. split; [|split].
    + repeat constructor; [|done]. simpl. intros Hnil.
      simpl in Hbound. rewrite Hnil in Hbound. simpl in Hbound. lia.
    + repeat constructor. simpl.
      unfold has_entity in Hhas. by apply bool_decide_eq_false in Hhas.
    + by intros es [= <-].
  - exists []. simpl. rewrite app_nil_r. repeat split; try done.
    by intros es [= <-].
Qed.

Lemma registers_returned_weaken (P Q : CustomEntity → Prop) m :
  (∀ e, P e → Q e) → registers_returned P m → registers_returned Q m.
Proof.
  intros HPQ Hm c. destruct (Hm c) as (news & Hreg & HP & Hfresh & Hret).
  exists news. split; [done|]. split; [|done].
  eapply Forall_impl; [exact HP|done].
Qed.

Lemma creates_only_for_each_elem {A} P (xs : list A)
    (body : A → Factory (list CustomEntity)) :
  (∀ x, x ∈ xs → creates_only P (body x) (λ es, es)) →
  creates_only P (for_each xs body) (λ es, es).
Proof.
  induction xs as [|x xs IH]; intros Hbody.
  - split; intros c; simpl; [| |constructor];
      exists []; (split; [by rewrite app_nil_r|constructor]).
  - destruct (Hbody x (list_elem_of_here _ _)) as [Hi Hg Hr].
    destruct (IH (λ y Hy, Hbody y (list_elem_of_further _ _ _ Hy)))
      as [IHi IHg IHr].
    split; intros c; rewrite FactoryFacts.for_each_cons;
      specialize (Hi c); specialize (Hg c); specialize (Hr c);
      destruct (body x c) as [[es|e] c1]; simpl in *; try done;
      specialize (IHi c1); specialize (IHg c1); specialize (IHr c1);
      destruct (for_each xs body c1) as [[more|e] c2]; simpl in *; try done.
    + destruct Hi as (n1 & Hn1 & H1). destruct IHi as (n2 & Hn2 & H2).
      exists (n1 ++ n2).
      split; [by rewrite Hn2, Hn1, app_assoc|by apply Forall_app].
    + destruct Hi as (n1 & Hn1 & H1). destruct IHi as (n2 & Hn2 & H2).
      exists (n1 ++ n2).
      split; [by rewrite Hn2, Hn1, app_assoc|by apply Forall_app].
    + destruct Hg as (n1 & Hn1 & H1). destruct IHg as (n2 & Hn2 & H2).
      exists (n1 ++ n2).
      split; [by rewrite Hn2, Hn1, app_assoc|by apply Forall_app].
    + destruct Hg as (n1 & Hn1 & H1). destruct IHg as (n2 & Hn2 & H2).
      exists (n1 ++ n2).
      split; [by rewrite Hn2, Hn1, app_assoc|by apply Forall_app].
    + by apply Forall_app.
Qed.

Section AnyTable.

Variable defs : EntityDefinitions.
Variable generate_unique_identifier : string → string.

Lemma registers_returned_make_custom_entity device custom_entity_class
    device_enum group_base_channels extended :
  registers_returned
    (λ e, data_entities e ≠ []
          ∧ data_entities e
            = custom_entity_class device (ce_device_enum e) (ce_device_def e)
                (ce_entity_def e) (ce_channel_no e) (ce_extended e)
          ∧ unique_identifier e
            = generate_unique_identifier
                (channel_address device (ce_channel_no e))
          ∧ channel_address device (ce_channel_no e) ∈ channels device)
    (make_custom_entity defs generate_unique_identifier device
       custom_entity_class device_enum group_base_channels extended).
Proof.
  unfold make_custom_entity.
  apply registers_returned_lift_bind; intros entity_def _.
  apply registers_returned_for_each; intros base_channel _.
  apply registers_returned_lift_bind; intros device_def _.
  apply registers_returned_lift_bind; intros primary _.
  apply registers_returned_for_each; intros channel_no _.
  eapply registers_returned_weaken;
    [|apply registers_returned_create_entities].
  simpl. by intros e (-> & Hdata & Hchan).
Qed.

(** X8: what the factory registers. For every table, device, class, kind,
    tuple of base channels and catalog, the entities registered by a run
    are appended to the catalog in the order they are made; when the run
    returns they are exactly the entities returned; each has bound at
    least one field (an entity that bound none is left out), has the
    identifier generated from its channel address, a channel the device
    has, and an identifier the catalog did not have before. *)
Theorem registered_are_returned (device : HmDevice)
    (custom_entity_class : EntityClass) (device_enum : EntityDefinition)
    (group_base_channels : list Z) (extended : option ExtendedConfig)
    (c : Catalog) :
  let run :=
    make_custom_entity defs generate_unique_identifier device
      custom_entity_class device_enum group_base_channels extended c in
  ∃ news,
    registered run.2 = registered c ++ news
    ∧ (∀ es, run.1 = Ok es → es = news)
    ∧ Forall
        (λ e, data_entities e ≠ []
              ∧ unique_identifier e
                = generate_unique_identifier
                    (channel_address device (ce_channel_no e))
              ∧ channel_address device (ce_channel_no e) ∈ channels device
              ∧ unique_identifier e ∉ unique_identifier <$> registered c)
        news.
Proof.
  intros run.
  destruct (registers_returned_make_custom_entity device custom_entity_class
              device_enum group_base_channels extended c)
    as (news & Hreg & HP & Hfresh & Hret).
  exists news. split; [done|]. split; [done|].
  apply Forall_forall. intros e He.
  rewrite Forall_forall in HP, Hfresh.
  destruct (HP e He) as (? & _ & ? & ?). specialize (Hfresh e He).
  done.
Qed.

(** X9: a class that binds no field. Whatever the table, the device and the
    base channels, the factory registers nothing and, when it returns,
    returns no entity. *)
Theorem nothing_bound_nothing_registered (device : HmDevice)
    (custom_entity_class : EntityClass) (device_enum : EntityDefinition)
    (group_base_channels : list Z) (extended : option ExtendedConfig)
    (c : Catalog) :
  (∀ kind device_def entity_def channel_no ext,
     custom_entity_class device kind device_def entity_def channel_no ext
     = []) →
  let run :=
    make_custom_entity defs generate_unique_identifier device
      custom_entity_class device_enum group_base_channels extended c in
  registered run.2 = registered c
  ∧ ∀ es, run.1 = Ok es → es = [].
Proof.
  intros Hnothing run.
  destruct (registers_returned_make_custom_entity device custom_entity_class
              device_enum group_base_channels extended c)
    as (news & Hreg & HP & _ & Hret).
  assert (Hnil : news = []).
  { destruct news as [|e news]; [done|].
    apply Forall_cons in HP as [(Hne & Heq & _) _].
    by rewrite Heq, Hnothing in Hne. }
  subst news. rewrite app_nil_r in Hreg. done.
Qed.

(** X10: the schema an entity is made with. Every entity a run of the
    factory instantiates, registers or returns is of the kind asked for,
    carries the extended configuration passed in, and has as its schema
    the group of the kind rebased by one of the base channels passed in,
    with its channel number the primary channel or a secondary channel of
    that rebased group. *)
Theorem entities_follow_rebased_schema (device : HmDevice)
    (custom_entity_class : EntityClass) (device_enum : EntityDefinition)
    (group_base_channels : list Z) (extended : option ExtendedConfig) :
  creates_only
    (λ e, ce_device_enum e = device_enum
          ∧ ce_extended e = extended
          ∧ ∃ base_channel,
              base_channel ∈ group_base_channels
              ∧ _get_device_group defs device_enum base_channel
                = Ok (ce_device_def e)
              ∧ channel_of_group (ce_device_def e) (ce_channel_no e))
    (make_custom_entity defs generate_unique_identifier device
       custom_entity_class device_enum group_base_channels extended)
    (λ es, es).
Proof.
  unfold make_custom_entity.
  apply FactoryFacts.creates_only_lift_bind; intros entity_def _.
  apply creates_only_for_each_elem; intros base_channel Hbase.
  apply FactoryFacts.creates_only_lift_bind; intros device_def Hdef.
  apply FactoryFacts.creates_only_lift_bind; intros primary Hprim.
  apply creates_only_for_each_elem; intros channel_no Hchannel.
  apply FactoryFacts.creates_only_create_entities. intros _. simpl.
  split; [done|]. split; [done|].
  exists base_channel. split; [done|]. split; [done|].
  apply elem_of_elements, elem_of_list_to_set in Hchannel.
  destruct (primary_channel device_def) as [p|] eqn:Hp; [|done].
  injection Hprim as ->.
  unfold channel_of_group. rewrite Hp.
  destruct (secondary_channels device_def) as [[|x l]|]; simpl in *.
  - apply list_elem_of_singleton in Hchannel. left. by f_equal.
  - apply elem_of_cons in Hchannel as [->|Hin]; [by left|by right].
  - apply list_elem_of_singleton in Hchannel. left. by f_equal.
Qed.

End AnyTable.

Lemma nothing_bound_nothing_registered_witness :
  let run :=
    make_custom_entity entity_definition (λ address, address)
      two_channel_device binds_nothing IP_DIMMER [0] None empty_catalog in
  registered run.2 = registered empty_catalog
  ∧ ∀ es, run.1 = Ok es → es = [].
Proof.
  apply (nothing_bound_nothing_registered entity_definition
           (λ address, address) two_channel_device binds_nothing IP_DIMMER
           [0] None empty_catalog).
  reflexivity.
Defined.

End FactoryMore.

(** ** The extended configuration *)

Module ConfigFacts.
Import ED Config.

Lemma elem_of_map_values {K} `{Countable K} {V} (m : gmap K V) (v : V) :
  v ∈ (map_to_list m).*2 ↔ ∃ k, m !! k = Some v.
Proof.
  rewrite list_elem_of_fmap. split.
  - intros ([k v'] & -> & Hin). exists k. by apply elem_of_map_to_list.
  - intros [k Hk]. exists (k, v). split; [done|].
    by apply elem_of_map_to_list.
Qed.

(** X11: [ExtendedConfig.required_parameters] lists exactly the parameter
    names the extended configuration refers to: a name is in the result
    if and only if it is the parameter of some field of some fixed channel
    or one of the parameters of some additional entity; with neither part
    set the result is empty. *)
Theorem required_parameters_exact (self : ExtendedConfig) (x : string) :
  (x ∈ required_parameters self
   ↔ (∃ channel_no mapping field,
        default ∅ (fixed_channels self) !! channel_no = Some mapping
        ∧ mapping !! field = Some x)
     ∨ (∃ key parameters,
          default ∅ (extended_additional_entities self) !! key
          = Some parameters
          ∧ x ∈ parameters))
  ∧ (fixed_channels self = None →
     extended_additional_entities self = None →
     required_parameters self = []).
Proof.
  split; [|by unfold required_parameters; intros -> ->].
  unfold required_parameters. rewrite elem_of_app.
  match goal with
  | |- (?A ∨ ?B) ↔ (?A' ∨ ?B') =>
      cut ((A ↔ A') ∧ (B ↔ B')); [tauto|split]
  end.
  - destruct (fixed_channels self) as [fc|]; simpl.
    + case_decide as Hempty.
      * subst fc. split; [by intros ?%elem_of_nil|].
        intros (ch & mapping & field & Hch & _).
        by rewrite lookup_empty in Hch.
      * rewrite list_elem_of_join. split.
        -- intros (l & Hx & Hl).
           apply list_elem_of_fmap in Hl as ([ch mapping] & -> & Hin).
           apply elem_of_map_to_list in Hin.
           apply elem_of_map_values in Hx as [field Hfield].
           by exists ch, mapping, field.
        -- intros (ch & mapping & field & Hch & Hfield).
           exists (map_to_list mapping).*2. split.
           ++ apply elem_of_map_values. by exists field.
           ++ apply list_elem_of_fmap. exists (ch, mapping).
              split; [done|]. by apply elem_of_map_to_list.
    + split; [by intros ?%elem_of_nil|].
      intros (ch & mapping & field & Hch & _).
      by rewrite lookup_empty in Hch.
  - destruct (extended_additional_entities self) as [ae|]; simpl.
    + case_decide as Hempty.
      * subst ae. split; [by intros ?%elem_of_nil|].
        intros (key & parameters & Hkey & _).
        by rewrite lookup_empty in Hkey.
      * rewrite list_elem_of_join. split.
        -- intros (l & Hx & Hl).
           apply list_elem_of_fmap in Hl as ([key parameters] & -> & Hin).
           apply elem_of_map_to_list in Hin.
           by exists key, parameters.
        -- intros (key & parameters & Hkey & Hx).
           exists parameters. split; [done|].
           apply list_elem_of_fmap. exists (key, parameters).
           split; [done|]. by apply elem_of_map_to_list.
    + split; [by intros ?%elem_of_nil|].
      intros (key & parameters & Hkey & _).
      by rewrite lookup_empty in Hkey.
Qed.

End ConfigFacts.

(** ** Python's [int] and [round] on rationals *)

Module NumFacts.

Local Open Scope Q_scope.

(** Names the quotient [x / c] so that linear arithmetic sees it. *)
Ltac name_quotient x c :=
  let H := fresh "Hquot" in
  assert (H : x == x / c * c) by (field; done);
  revert H; generalize (x / c); intros ? H.

Lemma Qle_inject_Z (a b : Z) : inject_Z a <= inject_Z b ↔ (a ≤ b)%Z.
Proof. unfold Qle. simpl. lia. Qed.

Lemma Qlt_inject_Z (a b : Z) : inject_Z a < inject_Z b ↔ (a < b)%Z.
Proof. unfold Qlt. simpl. lia. Qed.

Lemma py_int_floor (x : Q) : 0 <= x → py_int x = Qfloor x.
Proof.
  destruct x as [n d]. unfold Qle, py_int, Qfloor. simpl. intros Hn.
  apply Z.quot_div_nonneg; lia.
Qed.

Lemma py_int_nonpos (x : Q) : x <= 0 → (py_int x ≤ 0)%Z.
Proof.
  destruct x as [n d]. unfold Qle, py_int. simpl. intros Hn.
  replace n with (- - n)%Z by lia.
  rewrite Z.quot_opp_l by lia.
  assert (0 ≤ (- n) `quot` Z.pos d)%Z by (apply Z.quot_pos; lia). lia.
Qed.

(** [int] of a value between two integers stays between them. *)
Lemma py_int_between (x : Q) (lo hi : Z) :
  (0 ≤ lo)%Z → inject_Z lo <= x → x <= inject_Z hi →
  (lo ≤ py_int x ≤ hi)%Z.
Proof.
  intros Hlo Hge Hle.
  assert (Hx : 0 <= x).
  { apply Qle_trans with (inject_Z lo); [by apply Qle_inject_Z|done]. }
  rewrite (py_int_floor x Hx). split.
  - rewrite <- (Qfloor_Z lo). by apply Qfloor_resp_le.
  - rewrite <- (Qfloor_Z hi). by apply Qfloor_resp_le.
Qed.

(** [int] never moves a non-negative value up, and by less than one. *)
Lemma py_int_close (x : Q) :
  0 <= x → inject_Z (py_int x) <= x ∧ x < inject_Z (py_int x) + 1.
Proof.
  intros Hx. rewrite (py_int_floor x Hx). split; [apply Qfloor_le|].
  pose proof (Qlt_floor x) as Hhi. rewrite inject_Z_plus in Hhi. exact Hhi.
Qed.

(** [round] is within one half of its argument. *)
Lemma py_round_close (x : Q) :
  x - (1 # 2) <= inject_Z (py_round x)
  ∧ inject_Z (py_round x) <= x + (1 # 2).
Proof.
  unfold py_round.
  pose proof (Qfloor_le x) as Hlo. pose proof (Qlt_floor x) as Hhi.
  rewrite inject_Z_plus in Hhi. change (inject_Z 1) with 1 in Hhi.
  destruct (x - inject_Z (Qfloor x) ?= 1 # 2) eqn:Hcmp.
  - apply Qeq_alt in Hcmp.
    destruct (Z.even (Qfloor x)); rewrite ?inject_Z_plus;
      change (inject_Z 1) with 1; split; lra.
  - apply Qlt_alt in Hcmp. split; lra.
  - apply Qgt_alt in Hcmp. rewrite inject_Z_plus.
    change (inject_Z 1) with 1. split; lra.
Qed.

(** [round] of a value between two integers stays between them. *)
Lemma py_round_between (x : Q) (lo hi : Z) :
  inject_Z lo <= x → x <= inject_Z hi → (lo ≤ py_round x ≤ hi)%Z.
Proof.
  intros Hge Hle. destruct (py_round_close x) as [Hlo Hhi].
  assert (H1 : inject_Z lo - 1 < inject_Z (py_round x)) by lra.
  assert (H2 : inject_Z (py_round x) < inject_Z hi + 1) by lra.
  unfold Qlt in H1, H2. simpl in H1, H2. lia.
Qed.

End NumFacts.

(** ** More on the lights *)

Module LightMoreFacts.
Import ED Generic Light LightProps LightMore NumFacts.

Lemma or_zero_cases (value : Q) :
  or_zero (Some value) = 0%Q ∨ or_zero (Some value) = value.
Proof. unfold or_zero. destruct (Qeq_bool value 0); auto. Qed.

Lemma brightness_of_level (level : Q) :
  (0 <= level)%Q → (level <= 1)%Q →
  0 ≤ py_int (or_zero (Some level) * 255) ≤ 255.
Proof.
  intros H0 H1. destruct (or_zero_cases level) as [-> | ->]; [done|].
  apply py_int_between; [done| |]; unfold inject_Z; lra.
Qed.

(** X12: the brightness stays in its range. For a level between 0 and 1 the
    brightness of a dimmer and of a fixed colour light is between 0 and
    255, as the docstrings say. *)
Theorem brightness_in_range (self : LightEntity) (level : Q) :
  e_level self = Some level → (0 <= level)%Q → (level <= 1)%Q →
  0 ≤ CeDimmer_brightness self ≤ 255
  ∧ 0 ≤ CeIpFixedColorLight_brightness self ≤ 255.
Proof.
  intros Hlevel H0 H1.
  unfold CeDimmer_brightness, CeIpFixedColorLight_brightness.
  rewrite Hlevel. split; by apply brightness_of_level.
Qed.

Lemma brightness_in_range_witness :
  0 ≤ CeDimmer_brightness
        (mkLightEntity (Some (1 # 2)%Q) None None None None None) ≤ 255
  ∧ 0 ≤ CeIpFixedColorLight_brightness
          (mkLightEntity (Some (1 # 2)%Q) None None None None None) ≤ 255.
Proof.
  apply (brightness_in_range
           (mkLightEntity (Some (1 # 2)%Q) None None None None None)
           (1 # 2)%Q); [reflexivity|lra|lra].
Defined.

Lemma positive_brightness_level (value : option Q) :
  0 < py_int (or_zero value * 255) →
  ∃ level, value = Some level ∧ Qgtb level 0 = true.
Proof.
  destruct value as [level|]; [|done].
  intros Hpos. exists level. split; [done|].
  destruct (Qgtb level 0) eqn:Hgt; [done|].
  apply LightFacts.Qgtb_false in Hgt.
  destruct (or_zero_cases level) as [Hz | Hz]; rewrite Hz in Hpos;
    [done|].
  assert (py_int (level * 255) ≤ 0); [|lia].
  apply py_int_nonpos. lra.
Qed.

(** X13: brightness and [is_on] agree. Whenever the brightness of a dimmer
    or of a fixed colour light is above 0, its [is_on] is true (the
    converse fails: a level below 1/255 is on with brightness 0). *)
Theorem positive_brightness_is_on (self : LightEntity) :
  (0 < CeDimmer_brightness self → CeDimmer_is_on self = true)
  ∧ (0 < CeIpFixedColorLight_brightness self →
     CeIpFixedColorLight_is_on self = true)
  ∧ CeDimmer_is_on
      (mkLightEntity (Some (1 # 1000)%Q) None None None None None) = true
  ∧ CeDimmer_brightness
      (mkLightEntity (Some (1 # 1000)%Q) None None None None None) = 0.
Proof.
  split; [|split; [|done]].
  - unfold CeDimmer_brightness, CeDimmer_is_on. intros Hpos.
    destruct (positive_brightness_level _ Hpos) as (level & Hl & Hgt).
    rewrite Hl. exact Hgt.
  - unfold CeIpFixedColorLight_brightness, CeIpFixedColorLight_is_on.
    intros Hpos.
    destruct (positive_brightness_level _ Hpos) as (level & Hl & Hgt).
    rewrite Hl. exact Hgt.
Qed.

(** X14: the colour temperature stays in its range. With no cached colour
    level it is 500 mireds; with a colour level between 0 and 1 it is
    between 153 and 500 mireds, as the docstring says. *)
Theorem color_temp_in_range (self : LightEntity) :
  (e_color_level self = None → CeColorTempDimmer_color_temp self = 500)
  ∧ (∀ level, e_color_level self = Some level →
       (0 <= level)%Q → (level <= 1)%Q →
       153 ≤ CeColorTempDimmer_color_temp self ≤ 500).
Proof.
  unfold CeColorTempDimmer_color_temp. split; [by intros ->|].
  intros level -> H0 H1.
  destruct (or_zero_cases level) as [-> | ->]; [done|].
  apply py_int_between; [done| |];
    unfold HM_MAX_MIREDS, HM_MIN_MIREDS;
    change (500 - 153)%Z with 347%Z; unfold inject_Z; lra.
Qed.

(** X15: the ramp time of the fixed colour light. Two writes are made, the
    unit and then the value; the unit is SECONDS exactly for a ramp time
    of at most 16343 s; the value is at most 16343 unless the unit is
    HOURS, hence for every ramp time up to 58834800 s; a longer ramp time
    is not clamped: it goes out in HOURS with a value above 16343. *)
Theorem ramp_time_encoding (ramp_time : Q) :
  ∃ unit value,
    CeIpFixedColorLight_set_ramp_time_value ramp_time
    = ([(FIELD_RAMP_TIME_UNIT, VInt unit);
        (FIELD_RAMP_TIME_VALUE, VFloat value)], Ok ())
    ∧ (unit = TIME_UNIT_SECONDS ∨ unit = TIME_UNIT_MINUTES
       ∨ unit = TIME_UNIT_HOURS)
    ∧ (unit = TIME_UNIT_SECONDS ↔ (ramp_time <= 16343)%Q)
    ∧ (unit ≠ TIME_UNIT_HOURS → (value <= 16343)%Q)
    ∧ ((ramp_time <= 58834800)%Q → (value <= 16343)%Q)
    ∧ ((58834800 < ramp_time)%Q →
       unit = TIME_UNIT_HOURS ∧ (16343 < value)%Q).
Proof.
  unfold CeIpFixedColorLight_set_ramp_time_value.
  destruct (Qgtb ramp_time 16343) eqn:H1.
  - apply LightFacts.Qgtb_true in H1.
    destruct (Qgtb (ramp_time / 60) 16343) eqn:H2.
    + apply LightFacts.Qgtb_true in H2. eexists _, _. split; [reflexivity|].
      revert H2. name_quotient ramp_time 60%Q. intros H2.
      revert H2 Hquot. name_quotient q 60%Q. intros H2 Hq.
      unfold TIME_UNIT_SECONDS, TIME_UNIT_MINUTES, TIME_UNIT_HOURS.
      repeat split; try done; try lra; auto.
    + apply LightFacts.Qgtb_false in H2. eexists _, _. split; [reflexivity|].
      revert H2. name_quotient ramp_time 60%Q. intros H2.
      unfold TIME_UNIT_SECONDS, TIME_UNIT_MINUTES, TIME_UNIT_HOURS.
      repeat split; try done; try lra; auto.
  - apply LightFacts.Qgtb_false in H1. rewrite (proj2 (LightFacts.Qgtb_false _ _) H1).
    eexists _, _. split; [reflexivity|].
    unfold TIME_UNIT_SECONDS, TIME_UNIT_MINUTES, TIME_UNIT_HOURS.
    repeat split; try done; try lra; auto.
Qed.

(** *** The colour dimmer *)

Lemma clamp_unit (x : Q) :
  (0 <= Qmax (Qmin x 1) 0)%Q ∧ (Qmax (Qmin x 1) 0 <= 1)%Q.
Proof.
  split; [apply Q.le_max_r|].
  apply Q.max_lub; [apply Q.le_min_r|done].
Qed.

Lemma clamp_inside (x : Q) :
  (0 <= x)%Q → (x <= 1)%Q → (Qmax (Qmin x 1) 0 == x)%Q.
Proof.
  intros H0 H1. rewrite Q.max_l; [by apply Q.min_l|].
  rewrite Q.min_l; done.
Qed.

Lemma color_of_hs_hue_code (khue ksaturation : Q) :
  (10 <= ksaturation)%Q → 0 ≤ color_of_hs khue ksaturation ≤ 199.
Proof.
  intros Hsat. rewrite (LightFacts.color_of_hs_hue _ _ Hsat).
  destruct (clamp_unit (khue / 360)) as [H0 H1].
  apply py_round_between; unfold inject_Z; lra.
Qed.

(** X16: the colour code written by the colour dimmer is a code of the
    device. For every hue and saturation, also outside 0..360 and 0..100,
    the code is between 0 and 200, and it is 200 only for a saturation
    below 10 (percent). *)
Theorem color_code_in_range (khue ksaturation : Q) :
  0 ≤ color_of_hs khue ksaturation ≤ 200
  ∧ ((10 <= ksaturation)%Q → color_of_hs khue ksaturation ≤ 199).
Proof.
  split.
  - destruct (Qlt_le_dec ksaturation 10) as [Hlt|Hge].
    + rewrite (LightFacts.color_of_hs_white _ _ Hlt). lia.
    + pose proof (color_of_hs_hue_code khue ksaturation Hge). lia.
  - intros Hsat. pose proof (color_of_hs_hue_code khue ksaturation Hsat).
    lia.
Qed.

(** X17: a colour written and read back. For a hue between 0 and 360 and a
    saturation of at least 10, the colour dimmer reads the code it wrote
    back with saturation 100 and a hue that is at most 3 degrees below
    and at most 1 degree above the hue asked for (the code has 199 steps,
    the reading 200). *)
Theorem color_round_trip (self : LightEntity) (khue ksaturation : Q) :
  (0 <= khue)%Q → (khue <= 360)%Q → (10 <= ksaturation)%Q →
  let decoded :=
    CeColorDimmer_hs_color
      (with_color self (color_of_hs khue ksaturation)) in
  decoded.2 = 100%Q
  ∧ (khue - 3 <= decoded.1)%Q
  ∧ (decoded.1 <= khue + 1)%Q.
Proof.
  intros H0 H360 Hsat decoded. subst decoded.
  pose proof (color_of_hs_hue_code khue ksaturation Hsat) as Hcode.
  rewrite LightFacts.hs_color_hue by lia. simpl fst. simpl snd.
  split; [done|].
  rewrite (LightFacts.color_of_hs_hue _ _ Hsat).
  assert (Hclamp : (Qmax (Qmin (khue / 360) 1) 0 == khue / 360)%Q).
  { apply clamp_inside.
    - name_quotient khue 360%Q. lra.
    - name_quotient khue 360%Q. lra. }
  destruct (py_round_close (Qmax (Qmin (khue / 360) 1) 0 * 199))
    as [Hlo Hhi].
  revert Hlo Hhi.
  generalize (inject_Z (py_round (Qmax (Qmin (khue / 360) 1) 0 * 199))).
  intros code. revert Hclamp.
  generalize (Qmax (Qmin (khue / 360) 1) 0). intros y.
  name_quotient khue 360%Q. intros Hclamp Hlo Hhi.
  name_quotient code 200%Q. lra.
Qed.

Lemma color_round_trip_witness :
  let decoded :=
    CeColorDimmer_hs_color
      (with_color (mkLightEntity None None None None None None)
         (color_of_hs 180 100)) in
  decoded.2 = 100%Q
  ∧ (180 - 3 <= decoded.1)%Q
  ∧ (decoded.1 <= 180 + 1)%Q.
Proof.
  apply (color_round_trip (mkLightEntity None None None None None None)
           180 100); lra.
Defined.

(** *** The fixed colour light *)

Lemma hs_color_of_name (name : string) (hs : Q * Q) :
  _color_switcher !! name = Some hs →
  CeIpFixedColorLight_hs_color (Some name) = hs.
Proof. unfold CeIpFixedColorLight_hs_color. by intros ->. Qed.

(** X18: the names of the fixed colour light. [_convert_color] only yields
    names of [_color_switcher], so the colour read back is never the
    fallback for an unknown name; and every colour of [_color_switcher]
    converts back to its own name. *)
Theorem convert_color_round_trip :
  (∀ color, is_Some (_color_switcher !! _convert_color color))
  ∧ (∀ name hs, _color_switcher !! name = Some hs →
       _convert_color (Some hs) = name
       ∧ CeIpFixedColorLight_hs_color (Some (_convert_color (Some hs))) = hs).
Proof.
  split.
  - intros [[c0 c1]|]; unfold _convert_color; repeat case_match;
      vm_compute; by eexists.
  - intros name hs Hname.
    assert (Hback : _convert_color (Some hs) = name).
    { unfold _color_switcher in Hname.
      repeat (apply lookup_insert_Some in Hname
                as [[<- <-]|[_ Hname]]; [reflexivity|]).
      apply lookup_singleton_Some in Hname as [<- <-]. reflexivity. }
    split; [done|]. rewrite Hback. by apply hs_color_of_name.
Qed.

Lemma py_int_band (x : Q) (lo hi : Z) :
  (0 <= x)%Q → lo ≤ py_int x ≤ hi →
  (inject_Z lo <= x)%Q ∧ (x < inject_Z hi + 1)%Q.
Proof.
  intros Hx [Hlo Hhi]. destruct (py_int_close x Hx) as [Hle Hlt].
  apply (proj2 (Qle_inject_Z _ _)) in Hlo.
  apply (proj2 (Qle_inject_Z _ _)) in Hhi. split; lra.
Qed.

Lemma convert_color_bands (hue saturation : Q) :
  5 ≤ py_int saturation →
  _convert_color (Some (hue, saturation))
  = if py_int hue <=? 30 then "RED"
    else if py_int hue <=? 90 then "YELLOW"
    else if py_int hue <=? 150 then "GREEN"
    else if py_int hue <=? 210 then "TURQUOISE"
    else if py_int hue <=? 270 then "BLUE"
    else if py_int hue <=? 330 then "PURPLE"
    else "RED".
Proof.
  intros Hs. unfold _convert_color.
  rewrite (proj2 (Z.ltb_ge _ _) Hs).
  generalize (py_int hue). intros h.
  repeat match goal with
         | |- context [?a <? ?b] => destruct (Z.ltb_spec a b)
         | |- context [?a <=? ?b] => destruct (Z.leb_spec a b)
         end; cbn [andb]; try reflexivity; lia.
Qed.

(** X19: how far the fixed colour light moves a colour. A saturation below
    5 is read back as white (0, 0); with a saturation of at least 5 and a
    hue from 0 to below 331 the colour read back has saturation 100 and a
    hue less than 31 degrees away from the hue asked for. *)
Theorem fixed_color_quantisation (hue saturation : Q) :
  let decoded :=
    CeIpFixedColorLight_hs_color
      (Some (_convert_color (Some (hue, saturation)))) in
  ((saturation < 5)%Q → decoded = (0, 0)%Q)
  ∧ ((5 <= saturation)%Q → (0 <= hue)%Q → (hue < 331)%Q →
     decoded.2 = 100%Q
     ∧ (hue - 31 < decoded.1)%Q ∧ (decoded.1 < hue + 31)%Q).
Proof.
  intros decoded. subst decoded. split.
  - intros Hsat. unfold _convert_color.
    assert (Hs : py_int saturation < 5).
    { destruct (Qlt_le_dec saturation 0) as [Hneg|Hpos].
      - assert (py_int saturation ≤ 0); [|lia].
        apply py_int_nonpos. lra.
      - destruct (py_int_close saturation Hpos) as [Hle _].
        assert (H : (inject_Z (py_int saturation) < inject_Z 5)%Q).
        { unfold inject_Z at 2. lra. }
        exact (proj1 (Qlt_inject_Z _ _) H). }
    by rewrite (proj2 (Z.ltb_lt _ _) Hs).
  - intros Hsat Hhue0 Hhue.
    assert (Hs : 5 ≤ py_int saturation).
    { rewrite py_int_floor by lra. rewrite <- (Qfloor_Z 5).
      by apply Qfloor_resp_le. }
    rewrite (convert_color_bands _ _ Hs).
    assert (Hh : 0 ≤ py_int hue ≤ 330).
    { destruct (py_int_between hue 0 331) as [Hge _];
        [done|unfold inject_Z; lra|unfold inject_Z; lra|].
      destruct (py_int_close hue Hhue0) as [Hle _].
      assert (H : (inject_Z (py_int hue) < inject_Z 331)%Q).
      { unfold inject_Z at 2. lra. }
      apply (proj1 (Qlt_inject_Z _ _)) in H. lia. }
    pose proof (py_int_band hue) as Hband.
    destruct (Z.leb_spec (py_int hue) 30).
    { rewrite (hs_color_of_name "RED" (0, 100)%Q eq_refl).
      destruct (Hband 0 30 Hhue0 ltac:(lia)) as [Hl Hu].
      unfold inject_Z in Hl, Hu. cbn [fst snd]. repeat split; lra. }
    destruct (Z.leb_spec (py_int hue) 90).
    { rewrite (hs_color_of_name "YELLOW" (60, 100)%Q eq_refl).
      destruct (Hband 31 90 Hhue0 ltac:(lia)) as [Hl Hu].
      unfold inject_Z in Hl, Hu. cbn [fst snd]. repeat split; lra. }
    destruct (Z.leb_spec (py_int hue) 150).
    { rewrite (hs_color_of_name "GREEN" (120, 100)%Q eq_refl).
      destruct (Hband 91 150 Hhue0 ltac:(lia)) as [Hl Hu].
      unfold inject_Z in Hl, Hu. cbn [fst snd]. repeat split; lra. }
    destruct (Z.leb_spec (py_int hue) 210).
    { rewrite (hs_color_of_name "TURQUOISE" (180, 100)%Q eq_refl).
      destruct (Hband 151 210 Hhue0 ltac:(lia)) as [Hl Hu].
      unfold inject_Z in Hl, Hu. cbn [fst snd]. repeat split; lra. }
    destruct (Z.leb_spec (py_int hue) 270).
    { rewrite (hs_color_of_name "BLUE" (240, 100)%Q eq_refl).
      destruct (Hband 211 270 Hhue0 ltac:(lia)) as [Hl Hu].
      unfold inject_Z in Hl, Hu. cbn [fst snd]. repeat split; lra. }
    destruct (Z.leb_spec (py_int hue) 330); [|lia].
    rewrite (hs_color_of_name "PURPLE" (300, 100)%Q eq_refl).
    destruct (Hband 271 330 Hhue0 ltac:(lia)) as [Hl Hu].
    unfold inject_Z in Hl, Hu. cbn [fst snd]. repeat split; lra.
Qed.

(** *** Lists, effects and the select *)

Lemma py_list_index_in (l : list string) (x : string) :
  x ∈ l →
  ∃ i, py_list_index l x = Ok i
       ∧ 0 ≤ i < Z.of_nat (length l)
       ∧ l !! Z.to_nat i = Some x.
Proof.
  induction l as [|y l IH]; intros Hin; [by apply elem_of_nil in Hin|].
  simpl. destruct (String.eqb_spec y x) as [->|Hne].
  - exists 0. split; [done|]. split; [lia|done].
  - apply elem_of_cons in Hin as [->|Hin]; [done|].
    destruct (IH Hin) as (i & -> & Hi & Hlook). simpl.
    exists (i + 1). split; [done|]. split; [lia|].
    replace (Z.to_nat (i + 1)) with (S (Z.to_nat i)) by lia. done.
Qed.

Lemma py_list_index_not_in (l : list string) (x : string) :
  x ∉ l → py_list_index l x = Raise ValueError.
Proof.
  induction l as [|y l IH]; intros Hnot; [done|].
  simpl. destruct (String.eqb_spec y x) as [->|Hne].
  - exfalso. apply Hnot. apply list_elem_of_here.
  - rewrite IH; [done|]. intros Hin. apply Hnot. by apply list_elem_of_further.
Qed.

Lemma py_index_in_range {A} (l : list A) (i : Z) (x : A) :
  0 ≤ i → l !! Z.to_nat i = Some x → py_index l i = Ok x.
Proof.
  intros Hi Hlook. unfold py_index.
  assert (Hlen : i < Z.of_nat (length l)).
  { apply lookup_lt_Some in Hlook. lia. }
  rewrite (proj2 (Z.ltb_ge i 0) Hi).
  rewrite (proj2 (Z.leb_le 0 i) Hi), (proj2 (Z.ltb_lt _ _) Hlen).
  simpl. by rewrite Hlook.
Qed.

Lemma py_index_out_of_range {A} (l : list A) (i : Z) :
  i < - Z.of_nat (length l) ∨ Z.of_nat (length l) ≤ i →
  py_index l i = Raise IndexError.
Proof.
  intros Hout. unfold py_index.
  destruct (Z.ltb_spec i 0).
  - rewrite (proj2 (Z.leb_gt 0 _)); [done|lia].
  - destruct (Z.leb_spec 0 i); [|lia].
    rewrite (proj2 (Z.ltb_ge _ _)); [done|lia].
Qed.

Lemma py_index_wraps {A} (l : list A) (i : Z) :
  - Z.of_nat (length l) ≤ i < Z.of_nat (length l) →
  ∃ x, py_index l i = Ok x ∧ x ∈ l.
Proof.
  intros Hin. unfold py_index.
  set (j := if i <? 0 then i + Z.of_nat (length l) else i).
  assert (Hj : 0 ≤ j < Z.of_nat (length l)).
  { subst j. destruct (Z.ltb_spec i 0); lia. }
  rewrite (proj2 (Z.leb_le 0 j)), (proj2 (Z.ltb_lt j _)) by lia. simpl.
  destruct (lookup_lt_is_Some_2 l (Z.to_nat j)) as [x Hx]; [lia|].
  rewrite Hx. exists x. split; [done|]. by eapply list_elem_of_lookup_2.
Qed.

(** X20: the effect of the colour dimmer with effects. The cached index
    selects a name of the effect list when it is between -7 and 6, a
    negative index counting from the end of the list; for any other index
    reading the effect raises [IndexError]; with no cached index the
    effect is [None]. *)
Theorem effect_index_bounds (self : LightEntity) :
  (e_effect self = None → CeColorDimmerEffect_effect self = Ok None)
  ∧ (∀ value, e_effect self = Some value → -7 ≤ value < 7 →
       ∃ name, CeColorDimmerEffect_effect self = Ok (Some name)
               ∧ name ∈ _effect_list)
  ∧ (∀ value, e_effect self = Some value → value < -7 ∨ 7 ≤ value →
       CeColorDimmerEffect_effect self = Raise IndexError).
Proof.
  unfold CeColorDimmerEffect_effect. split; [by intros ->|]. split.
  - intros value -> Hrange.
    destruct (py_index_wraps _effect_list value) as (name & -> & Hin);
      [simpl; lia|].
    by exists name.
  - intros value -> Hout.
    rewrite py_index_out_of_range; [done|simpl; lia].
Qed.

(** X21: an effect asked for by name. When the name is not in the effect
    list, [turn_on] raises and, up to then, has written to the effect
    field at most: no colour, no time and no level. When the name is in
    the list and [turn_on] returns, the index it wrote to the effect field
    reads back as that name. *)
Theorem effect_by_name (self : LightEntity) (kwargs : Kwargs)
    (name : string) :
  kw_effect kwargs = Some name →
  let run := turn_on CeColorDimmerEffect self kwargs in
  (name ∉ _effect_list →
     (∃ e, run.2 = Raise e)
     ∧ Forall (λ w : Write, w.1 = FIELD_PROGRAM) run.1)
  ∧ (name ∈ _effect_list → run.2 = Ok () →
       ∃ index,
         (FIELD_PROGRAM, VInt index) ∈ run.1
         ∧ CeColorDimmerEffect_effect (with_effect self index)
           = Ok (Some name)).
Proof.
  intros Heffect run. subst run.
  unfold turn_on, CeColorDimmerEffect_turn_on. rewrite Heffect.
  generalize (CeColorDimmer_turn_on CeColorDimmerEffect self kwargs).
  intros rest. split.
  - intros Hnot. rewrite (py_list_index_not_in _ _ Hnot).
    destruct (kw_hs_color kwargs) as [hs|].
    + destruct (CeColorDimmerEffect_effect self) as [current|e]; simpl.
      * case_bool_decide; simpl; split; try by eexists.
        -- by repeat constructor.
        -- constructor.
      * split; [by eexists|constructor].
    + simpl. split; [by eexists|constructor].
  - intros Hin. destruct (py_list_index_in _ _ Hin) as (i & -> & Hi & Hlook).
    intros Hok. exists i. split.
    + destruct (kw_hs_color kwargs) as [hs|].
      * destruct (CeColorDimmerEffect_effect self) as [current|e];
          [|done]. simpl in *.
        case_bool_decide; simpl;
          rewrite ?elem_of_cons; auto.
      * simpl. rewrite ?elem_of_cons; auto.
    + unfold CeColorDimmerEffect_effect. simpl.
      by rewrite (py_index_in_range _ _ _ (proj1 Hi) Hlook).
Qed.

Lemma effect_by_name_witness :
  let run :=
    turn_on CeColorDimmerEffect
      (mkLightEntity (Some 0%Q) None None None None None)
      (mkKwargs None None None None None (Some "Campfire") []) in
  ("Campfire" ∉ _effect_list →
     (∃ e, run.2 = Raise e)
     ∧ Forall (λ w : Write, w.1 = FIELD_PROGRAM) run.1)
  ∧ ("Campfire" ∈ _effect_list → run.2 = Ok () →
       ∃ index,
         (FIELD_PROGRAM, VInt index) ∈ run.1
         ∧ CeColorDimmerEffect_effect
             (with_effect
                (mkLightEntity (Some 0%Q) None None None None None) index)
           = Ok (Some "Campfire")).
Proof.
  apply (effect_by_name
           (mkLightEntity (Some 0%Q) None None None None None)
           (mkKwargs None None None None None (Some "Campfire") [])
           "Campfire").
  reflexivity.
Defined.

(** X22: what the select sends. For a name, [HmSelect.send_value] sends one
    write, the index of the name in the value list, exactly when the name
    is in the list, and nothing otherwise; for an int it sends the int
    itself exactly when it is an index of the list; so every value sent is
    a valid index of the value list, and with no value list nothing is
    sent. *)
Theorem select_sends_valid_index (attr_value_list : option (list string))
    (field : string) (name : string) (number : Z) :
  (name ∈ default [] attr_value_list →
     ∃ index,
       HmSelect_send_value attr_value_list field name
       = ([(field, VInt index)], Ok ())
       ∧ 0 ≤ index < Z.of_nat (length (default [] attr_value_list))
       ∧ default [] attr_value_list !! Z.to_nat index = Some name)
  ∧ (name ∉ default [] attr_value_list →
       HmSelect_send_value attr_value_list field name = ([], Ok ()))
  ∧ (0 ≤ number < Z.of_nat (length (default [] attr_value_list)) →
       HmSelect_send_value_int attr_value_list field number
       = ([(field, VInt number)], Ok ()))
  ∧ (number < 0 ∨ Z.of_nat (length (default [] attr_value_list)) ≤ number →
       HmSelect_send_value_int attr_value_list field number = ([], Ok ())).
Proof.
  unfold HmSelect_send_value, HmSelect_send_value_int.
  destruct attr_value_list as [[|v vs]|]; simpl default.
  - repeat split; try done. { by intros ?%elem_of_nil. } simpl. lia.
  - split; [|split; [|split]].
    + intros Hin. rewrite (bool_decide_eq_true_2 _ Hin).
      destruct (py_list_index_in _ _ Hin) as (i & Hidx & Hi & Hlook).
      exists i. rewrite Hidx. done.
    + intros Hnot. by rewrite (bool_decide_eq_false_2 _ Hnot).
    + intros Hrange.
      rewrite (proj2 (Z.leb_le 0 number)), (proj2 (Z.ltb_lt number _));
        [done|lia|lia].
    + intros [Hneg|Hbig].
      * by rewrite (proj2 (Z.leb_gt 0 number)) by lia.
      * rewrite (proj2 (Z.ltb_ge number _)) by lia.
        by rewrite andb_false_r.
  - repeat split; try done. { by intros ?%elem_of_nil. } simpl. lia.
Qed.

(** *** The level written by [turn_on] and [turn_off] *)

Lemma base_level_write cls self kwargs (w : Write) :
  w ∈ (BaseHmLight_turn_on cls self kwargs).1 →
  w.1 = FIELD_LEVEL →
  w.2 = VFloat (inject_Z (target_brightness cls self kwargs) / 255).
Proof.
  unfold BaseHmLight_turn_on.
  rewrite LightFacts.target_brightness_nonzero.
  simpl negb. rewrite andb_true_l.
  generalize (target_brightness cls self kwargs) (brightness cls self).
  generalize (kwargs_truthy kwargs). intros truthy target current.
  destruct (target =? current), truthy; simpl negb; simpl orb;
    destruct (kw_ramp_time kwargs) as [ramp_time|],
             (kw_on_time kwargs) as [on_time|];
    destruct cls;
    unfold set_ramp_time_value, set_on_time_value,
      CeIpFixedColorLight_set_ramp_time_value,
      CeIpFixedColorLight_set_on_time_value;
    LightFacts.split_conditions; simpl;
    intros Hin Hfield;
    repeat (apply elem_of_cons in Hin as [->|Hin]; [done|]);
    by apply elem_of_nil in Hin.
Qed.

Lemma level_reads_back (b : Z) :
  1 ≤ b → py_int (or_zero (Some (inject_Z b / 255)%Q) * 255) = b.
Proof.
  intros Hb. unfold or_zero.
  destruct (Qeq_bool (inject_Z b / 255) 0) eqn:Hzero.
  - apply Qeq_bool_iff in Hzero. unfold Qeq in Hzero. simpl in Hzero. lia.
  - unfold py_int. simpl.
    replace (b * 1 * 255) with (b * 255) by lia.
    apply Z.quot_mul. lia.
Qed.

(** X23: the level [turn_on] writes. For every class of light, a write of
    [turn_on] to the level field carries the target brightness divided by
    255, and the target brightness is never 0: a brightness of 0 passed in
    is replaced by 255, so [turn_on] never sends the level 0. A brightness
    from 1 to 255 passed in is the target, and the level written for it
    reads back as that brightness. *)
Theorem level_written (cls : LightClass) (self : LightEntity)
    (kwargs : Kwargs) (w : Write) :
  w ∈ (turn_on cls self kwargs).1 →
  w.1 = FIELD_LEVEL →
  w.2 = VFloat (inject_Z (target_brightness cls self kwargs) / 255)
  ∧ target_brightness cls self kwargs ≠ 0
  ∧ (kw_brightness kwargs = Some 0 →
     target_brightness cls self kwargs = 255)
  ∧ (∀ b, kw_brightness kwargs = Some b → 1 ≤ b ≤ 255 →
       target_brightness cls self kwargs = b
       ∧ brightness cls (with_level self (inject_Z b / 255)) = b).
Proof.
  intros Hin Hfield. split; [|split; [|split]].
  - destruct (LightFacts.turn_on_extras_then_base cls self kwargs)
      as (extras & Hrun & Hextras).
    rewrite Hrun in Hin.
    assert (Hbase : w ∈ (BaseHmLight_turn_on cls self kwargs).1).
    { destruct extras as [ews [[]|e]]; simpl in *.
      - apply elem_of_app in Hin as [Hin|Hin]; [|done].
        exfalso. rewrite forallb_forall in Hextras.
        apply list_elem_of_In in Hin. specialize (Hextras w Hin).
        by rewrite Hfield in Hextras.
      - exfalso. rewrite forallb_forall in Hextras.
        apply list_elem_of_In in Hin. specialize (Hextras w Hin).
        by rewrite Hfield in Hextras. }
    by apply base_level_write.
  - apply Z.eqb_neq, LightFacts.target_brightness_nonzero.
  - unfold target_brightness. by intros ->.
  - intros b Hb Hrange. split.
    + unfold target_brightness. rewrite Hb. simpl.
      by rewrite (proj2 (Z.eqb_neq b 0)) by lia.
    + destruct cls; apply level_reads_back; lia.
Qed.

Lemma level_written_witness :
  ((FIELD_LEVEL, VFloat (128 # 255)) : Write).2
  = VFloat
      (inject_Z
         (target_brightness CeDimmer
            (mkLightEntity (Some 0%Q) None None None None None)
            (mkKwargs None None (Some 128) None None None [])) / 255)
  ∧ target_brightness CeDimmer
      (mkLightEntity (Some 0%Q) None None None None None)
      (mkKwargs None None (Some 128) None None None []) ≠ 0
  ∧ (Some 128 = Some 0 →
     target_brightness CeDimmer
       (mkLightEntity (Some 0%Q) None None None None None)
       (mkKwargs None None (Some 128) None None None []) = 255)
  ∧ (∀ b, Some 128 = Some b → 1 ≤ b ≤ 255 →
       target_brightness CeDimmer
         (mkLightEntity (Some 0%Q) None None None None None)
         (mkKwargs None None (Some 128) None None None []) = b
       ∧ brightness CeDimmer
           (with_level (mkLightEntity (Some 0%Q) None None None None None)
              (inject_Z b / 255)) = b).
Proof.
  apply (level_written CeDimmer
           (mkLightEntity (Some 0%Q) None None None None None)
           (mkKwargs None None (Some 128) None None None [])
           (FIELD_LEVEL, VFloat (128 # 255))).
  - vm_compute. apply list_elem_of_here.
  - reflexivity.
Defined.

(** X24: [turn_off]. For every class of light it returns, its last write is
    the level 0.0, the writes before it are ramp time writes, present
    exactly when a ramp time was passed: on time, brightness, colour and
    effect arguments are ignored. *)
Theorem turn_off_writes (cls : LightClass) (kwargs : Kwargs) :
  let run := BaseHmLight_turn_off cls kwargs in
  run.2 = Ok ()
  ∧ ∃ before,
      run.1 = before ++ [(FIELD_LEVEL, VFloat HM_DIMMER_OFF)]
      ∧ forallb (λ w : Write, is_ramp_field w.1) before = true
      ∧ (before = [] ↔ kw_ramp_time kwargs = None).
Proof.
  unfold BaseHmLight_turn_off.
  destruct (kw_ramp_time kwargs) as [ramp_time|]; destruct cls;
    unfold set_ramp_time_value, CeIpFixedColorLight_set_ramp_time_value;
    LightFacts.split_conditions; simpl;
    (split; [done|]);
    first [ by exists []
          | by eexists [_]
          | by eexists [_; _] ].
Qed.

End LightMoreFacts.

(** ** More on the locks *)

Module LockMoreFacts.
Import ED Generic Lock LockMore.

Lemma py_str_is_both (value : PyVal) :
  py_str_is value HM_LOCKING = true →
  py_str_is value HM_UNLOCKING = true → False.
Proof.
  destruct value as [|b|z|q|s]; simpl; try done.
  - by destruct b.
  - rewrite !String.eqb_eq. intros H1 H2. rewrite H1 in H2. done.
  - rewrite !String.eqb_eq. intros -> H2. done.
Qed.

Lemma direction_none (value : PyVal) (s : string) :
  (if is_not_None value then Some (py_str_is value s) else None) = None
  ↔ value = VNone.
Proof. by destruct value. Qed.

(** X25: the direction of a lock. For the classic and for the IP lock,
    [is_locking] and [is_unlocking] are never both true; each is [None]
    exactly when the direction has no cached value; the direction DOWN
    reads as locking and not unlocking, the direction UP as unlocking and
    not locking. *)
Theorem lock_direction_exclusive (rf : CeRfLock) (ip : CeIpLock) :
  ¬ (is_locking rf = Some true ∧ is_unlocking rf = Some true)
  ∧ ¬ (CeIpLock_is_locking ip = Some true
       ∧ CeIpLock_is_unlocking ip = Some true)
  ∧ (is_locking rf = None ↔ e_direction rf = VNone)
  ∧ (is_unlocking rf = None ↔ e_direction rf = VNone)
  ∧ (CeIpLock_is_locking ip = None ↔ ip_direction ip = VNone)
  ∧ (CeIpLock_is_unlocking ip = None ↔ ip_direction ip = VNone)
  ∧ (e_direction rf = VStr "DOWN" →
     is_locking rf = Some true ∧ is_unlocking rf = Some false)
  ∧ (e_direction rf = VStr "UP" →
     is_locking rf = Some false ∧ is_unlocking rf = Some true)
  ∧ (ip_direction ip = VStr "DOWN" →
     CeIpLock_is_locking ip = Some true
     ∧ CeIpLock_is_unlocking ip = Some false)
  ∧ (ip_direction ip = VStr "UP" →
     CeIpLock_is_locking ip = Some false
     ∧ CeIpLock_is_unlocking ip = Some true).
Proof.
  unfold is_locking, is_unlocking, CeIpLock_is_locking,
    CeIpLock_is_unlocking.
  split.
  { intros [H1 H2]. destruct (is_not_None (e_direction rf)); [|done].
    injection H1 as H1. injection H2 as H2.
    by apply (py_str_is_both (e_direction rf)). }
  split.
  { intros [H1 H2]. destruct (is_not_None (ip_direction ip)); [|done].
    injection H1 as H1. injection H2 as H2.
    by apply (py_str_is_both (ip_direction ip)). }
  do 4 (split; [apply direction_none|]).
  split; [by intros ->|].
  split; [by intros ->|].
  split; by intros ->.
Qed.

(** X26: a lock whose state is not known. The classic lock reads locked
    when its state has no cached value, and always when the state is an
    action parameter (whose value always reads [False]); the IP lock reads
    locked only when the lock state is exactly LOCKED, so not when it has
    no cached value; and the IP lock is never jammed. *)
Theorem lock_without_state (rf : CeRfLock) (ip : CeIpLock) :
  (attr_type (e_state rf) = TYPE_ACTION → is_locked rf = true)
  ∧ (attr_value (e_state rf) = None → is_locked rf = true)
  ∧ (CeIpLock_is_locked ip = true
     ↔ ip_lock_state ip = VStr LOCK_STATE_LOCKED)
  ∧ (ip_lock_state ip = VNone → CeIpLock_is_locked ip = false)
  ∧ CeIpLock_is_jammed ip = false.
Proof.
  split; [|split; [|split; [|split]]].
  - unfold is_locked, HmSwitch_value. by intros ->.
  - unfold is_locked, HmSwitch_value. intros ->.
    by destruct (String.eqb _ _).
  - unfold CeIpLock_is_locked, py_eq_str.
    destruct (ip_lock_state ip) as [|b|z|q|s]; try (split; done).
    rewrite String.eqb_eq. split; [by intros ->|by intros [= ->]].
  - unfold CeIpLock_is_locked. by intros ->.
  - done.
Qed.

End LockMoreFacts.
